(** * Pipedrive email archiver: a shallow embedding of [archiver.js]

    The script fetches every mail thread of the inbox page by page, splits
    the threads by [archived_flag], asks for confirmation and then issues one
    PUT per unarchived thread, counting successes and failures.

    The embedding keeps the control flow of the class
    [PipedriveEmailArchiver] method by method.  Everything the script does
    to the outside (HTTP requests, the prompt, console and spinner output,
    the 100 ms pause, [process.exit]) is recorded in a trace; everything it
    reads from the outside (command line, environment, HTTP responses, the
    answer to the prompt) comes from a [World].

    JavaScript numbers are modelled by [Z]: every number of the script is a
    small non-negative integer (an offset, a counter, a length), far below
    2^53.  Responses are JSON of the shape the service documents: a thread
    is an object, [data] is an array or absent, and the fields the script
    tests for truthiness ([archived_flag], [success],
    [more_items_in_collection]) hold any scalar.

    The [while] loop of [getAllThreads] need not end (a service may announce
    more pages for ever), so it takes fuel; every other method is total. *)

From Stdlib Require Import ZArith List String Bool Lia Permutation.
Import ListNotations.

Local Open Scope string_scope.
Local Open Scope list_scope.
Local Open Scope Z_scope.

(** ** JavaScript values and truthiness *)

Module Js.

(** The JSON values a field such as [archived_flag], [success] or
    [more_items_in_collection] can hold ([Undefined] is an absent field). *)
Inductive value : Type :=
| Undefined
| Null
| Bool (b : bool)
| Num (n : Z)
| Str (s : string).

(** [ToBoolean]: what [if (v)], [!v] and [filter(t => v)] test. *)
Definition truthy (v : value) : bool :=
  match v with
  | Undefined | Null => false
  | Bool b => b
  | Num n => negb (n =? 0)%Z
  | Str s => negb (s =? "")%string
  end.

(** [a || b] on optional strings: the empty string is falsy as well. *)
Definition or_else (a b : option string) : option string :=
  match a with
  | Some s => if (s =? "")%string then b else a
  | None => b
  end.

(** [a || 'literal']. *)
Definition or_default (a : option string) (d : string) : string :=
  match a with
  | Some s => if (s =? "")%string then d else s
  | None => d
  end.

End Js.

(** ** Data model *)

Record Party : Type := { name : option string }.

Record Parties : Type := {
  to : option (list Party);
  from : option (list Party)
}.

Record Thread : Type := {
  id : Z;
  subject : option string;
  parties : option Parties;
  archived_flag : Js.value
}.

(** [this.stats] *)
Record Stats : Type := {
  total : Z;
  archived : Z;
  alreadyArchived : Z;
  failed : Z
}.

(** A rejected promise or a thrown exception: [error.message] and
    [error.response?.data?.error]. *)
Record JsError : Type := {
  message : string;
  response_error : option string
}.

(** [error.response?.data?.error || error.message] *)
Definition error_text (error : JsError) : string :=
  Js.or_default (response_error error) (message error).

(** The body of a GET [/mailbox/mailThreads] response. *)
Record Pagination : Type := { more_items_in_collection : Js.value }.
Record AdditionalData : Type := { pagination : option Pagination }.
Record ListBody : Type := {
  data : option (list Thread);
  additional_data : option AdditionalData
}.

(** [axios.get] resolves with a response whose [data] is the body ([None]
    for a [null] body) or rejects. *)
Inductive GetResult : Type :=
| GetOk (body : option ListBody)
| GetFail (error : JsError).

(** The body of a PUT [/mailbox/mailThreads/{id}] response. *)
Record PutBody : Type := { success : Js.value }.

Inductive PutResult : Type :=
| PutOk (body : option PutBody)
| PutFail (error : JsError).

(** [inquirer.prompt] resolves with [{ confirm }] or rejects. *)
Inductive PromptResult : Type :=
| Answered (confirm : bool)
| PromptFail (error : JsError).

(** Everything the script reads from outside.  The [k]-th GET (counting
    from 0) with parameters [start] and [limit] is answered by
    [on_get k start limit]; the [k]-th PUT for thread [i] by [on_put k i]. *)
Record World : Type := {
  argv : list string;
  PIPEDRIVE_API_TOKEN : option string;
  PIPEDRIVE_DOMAIN : option string;
  on_get : nat -> Z -> Z -> GetResult;
  on_put : nat -> Z -> PutResult;
  on_prompt : Z -> PromptResult
}.

(** Lines written to the console or shown by the spinner, one constructor
    per call site. *)
Inductive Msg : Type :=
| ErrNoToken
| SpinFetching (start : Z)
| SpinFetched (n : Z)
| SpinFetchFailed
| ErrFetch (text : string)
| ErrArchive (threadId : Z) (text : string)
| LogFetchingAll
| LogSummary
| LogTotal (n : Z)
| LogUnarchived (n : Z)
| LogAlreadyArchived (n : Z)
| LogSampleHeader
| LogSample (subject parties : string)
| LogMore (n : Z)
| LogDryRun
| LogWouldArchive (subject parties : string)
| SpinArchiving
| SpinText (i n : Z) (subject : string)
| SpinArchived
| LogResults
| LogProcessed (n : Z)
| LogArchived (n : Z)
| LogFailed (n : Z)
| LogTitle
| LogNoThreads
| LogAllArchived
| LogCancelled
| ErrFatal (text : string)
| LogHelp.

(** What the script does to the outside, in program order. *)
Inductive Event : Type :=
| EvGet (start limit : Z)
| EvPut (threadId : Z) (flag : Z)
| EvPrompt (threadCount : Z)
| EvSleep (ms : Z)
| EvOut (m : Msg).

Record State : Type := {
  stats : Stats;
  trace : list Event;
  n_get : nat;
  n_put : nat
}.

(** ** A state, exception and exit monad *)

Inductive Outcome (A : Type) : Type :=
| Ret (a : A)
| Throw (error : JsError)
| Exit (code : Z)
| OutOfFuel.

Arguments Ret {A} a.
Arguments Throw {A} error.
Arguments Exit {A} code.
Arguments OutOfFuel {A}.

Definition M (A : Type) : Type := State -> Outcome A * State.

Definition ret {A} (a : A) : M A := fun st => (Ret a, st).

Definition bind {A B} (m : M A) (k : A -> M B) : M B :=
  fun st =>
    match m st with
    | (Ret a, st') => k a st'
    | (Throw e, st') => (Throw e, st')
    | (Exit c, st') => (Exit c, st')
    | (OutOfFuel, st') => (OutOfFuel, st')
    end.

Notation "x <- m ;; k" := (bind m (fun x => k))
  (at level 61, m at next level, right associativity).
Notation "m ;; k" := (bind m (fun _ => k))
  (at level 61, right associativity).

Definition throw {A} (e : JsError) : M A := fun st => (Throw e, st).

(** [process.exit(code)]: nothing after it runs, and no [catch] sees it. *)
Definition process_exit {A} (code : Z) : M A := fun st => (Exit code, st).

Definition out_of_fuel {A} : M A := fun st => (OutOfFuel, st).

(** [try { m } catch (error) { handler }] *)
Definition try_catch {A} (m : M A) (handler : JsError -> M A) : M A :=
  fun st =>
    match m st with
    | (Throw e, st') => handler e st'
    | r => r
    end.

Definition emit (ev : Event) : M unit :=
  fun st =>
    (Ret tt, {| stats := stats st; trace := trace st ++ [ev];
                n_get := n_get st; n_put := n_put st |}).

Definition out (m : Msg) : M unit := emit (EvOut m).

Definition get_stats : M Stats := fun st => (Ret (stats st), st).

Definition set_stats (s : Stats) : M unit :=
  fun st =>
    (Ret tt, {| stats := s; trace := trace st;
                n_get := n_get st; n_put := n_put st |}).

(** [process.argv.includes(flag)] *)
Definition includes (args : list string) (flag : string) : bool :=
  existsb (String.eqb flag) args.

(** [xs.length] *)
Definition len {A} (xs : list A) : Z := Z.of_nat (List.length xs).

(** The [TypeError] of reading a property of a [null] body. *)
Definition type_error_null (prop : string) : JsError :=
  {| message :=
       String.append "Cannot read properties of null (reading '"
         (String.append prop "')");
     response_error := None |}.

(** ** The class [PipedriveEmailArchiver] *)

Section Archiver.

Variable w : World.

(** [axios.get(url, { params: { api_token, start, limit, folder } })],
    giving [response.data]. *)
Definition axios_get (start limit : Z) : M (option ListBody) :=
  fun st =>
    let st' := {| stats := stats st;
                  trace := trace st ++ [EvGet start limit];
                  n_get := S (n_get st); n_put := n_put st |} in
    match on_get w (n_get st) start limit with
    | GetOk body => (Ret body, st')
    | GetFail e => (Throw e, st')
    end.

(** [axios.put(url, { archived_flag: 1 }, { params: { api_token } })],
    giving [response.data]. *)
Definition axios_put (threadId : Z) : M (option PutBody) :=
  fun st =>
    let st' := {| stats := stats st;
                  trace := trace st ++ [EvPut threadId 1];
                  n_get := n_get st; n_put := S (n_put st) |} in
    match on_put w (n_put st) threadId with
    | PutOk body => (Ret body, st')
    | PutFail e => (Throw e, st')
    end.

(** [inquirer.prompt([{ type: 'confirm', ..., default: false }])] *)
Definition inquirer_prompt (threadCount : Z) : M bool :=
  emit (EvPrompt threadCount) ;;
  match on_prompt w threadCount with
  | Answered confirm => ret confirm
  | PromptFail e => throw e
  end.

(** [response.data.data?.length || 0] *)
Definition fetched_count (body : ListBody) : Z :=
  match data body with
  | Some items => len items
  | None => 0
  end.

Definition fetchMailThreads (start limit : Z) : M ListBody :=
  out (SpinFetching start) ;;
  try_catch
    (response_data <- axios_get start limit ;;
     match response_data with
     | None => throw (type_error_null "data")
     | Some body =>
         out (SpinFetched (fetched_count body)) ;;
         ret body
     end)
    (fun error =>
       out SpinFetchFailed ;;
       out (ErrFetch (error_text error)) ;;
       throw error).

(** [data.additional_data?.pagination?.more_items_in_collection] *)
Definition more_items (body : ListBody) : Js.value :=
  match additional_data body with
  | Some ad =>
      match pagination ad with
      | Some p => more_items_in_collection p
      | None => Js.Undefined
      end
  | None => Js.Undefined
  end.

Definition limit : Z := 100.

(** The [while (hasMore)] loop of [getAllThreads]; [fuel] bounds the
    number of iterations. *)
Fixpoint while_hasMore (fuel : nat) (hasMore : bool)
    (allThreads : list Thread) (start : Z) : M (list Thread) :=
  if hasMore then
    match fuel with
    | O => out_of_fuel
    | S fuel' =>
        body <- fetchMailThreads start limit ;;
        match data body with
        | Some ((_ :: _) as items) =>
            let allThreads := allThreads ++ items in
            let start := start + limit in
            if negb (Js.truthy (more_items body))
            then while_hasMore fuel' false allThreads start
            else while_hasMore fuel' hasMore allThreads start
        | _ => while_hasMore fuel' false allThreads start
        end
    end
  else ret allThreads.

Definition getAllThreads (fuel : nat) : M (list Thread) :=
  out LogFetchingAll ;;
  while_hasMore fuel true [] 0.

(** [this.stats.archived++] *)
Definition incr_archived : M unit :=
  s <- get_stats ;;
  set_stats {| total := total s; archived := archived s + 1;
               alreadyArchived := alreadyArchived s; failed := failed s |}.

(** [this.stats.failed++] *)
Definition incr_failed : M unit :=
  s <- get_stats ;;
  set_stats {| total := total s; archived := archived s;
               alreadyArchived := alreadyArchived s; failed := failed s + 1 |}.

Definition archiveThread (threadId : Z) : M bool :=
  try_catch
    (response_data <- axios_put threadId ;;
     match response_data with
     | None => throw (type_error_null "success")
     | Some body =>
         if Js.truthy (success body)
         then incr_archived ;; ret true
         else incr_failed ;; ret false
     end)
    (fun error =>
       incr_failed ;;
       out (ErrArchive threadId (error_text error)) ;;
       ret false).

(** [threads.filter(t => !t.archived_flag)] *)
Definition unarchived_threads (threads : list Thread) : list Thread :=
  filter (fun t => negb (Js.truthy (archived_flag t))) threads.

(** [threads.filter(t => t.archived_flag)] *)
Definition archived_threads (threads : list Thread) : list Thread :=
  filter (fun t => Js.truthy (archived_flag t)) threads.

(** [xs?.[0]?.name] *)
Definition first_name (xs : option (list Party)) : option string :=
  match xs with
  | Some (p :: _) => name p
  | _ => None
  end.

(** [thread.parties?.to?.[0]?.name || thread.parties?.from?.[0]?.name
    || 'Unknown'] *)
Definition parties_text (thread : Thread) : string :=
  match parties thread with
  | Some ps =>
      Js.or_default (Js.or_else (first_name (to ps)) (first_name (from ps)))
        "Unknown"
  | None => "Unknown"
  end.

(** [thread.subject || 'No subject'] *)
Definition subject_text (thread : Thread) : string :=
  Js.or_default (subject thread) "No subject".

(** [xs.forEach(f)] *)
Fixpoint forEach {A} (xs : list A) (f : A -> M unit) : M unit :=
  match xs with
  | [] => ret tt
  | x :: xs' => f x ;; forEach xs' f
  end.

Definition displayThreadInfo (threads : list Thread) : M (list Thread) :=
  out LogSummary ;;
  out (LogTotal (len threads)) ;;
  let unarchived := unarchived_threads threads in
  let archived := archived_threads threads in
  out (LogUnarchived (len unarchived)) ;;
  out (LogAlreadyArchived (len archived)) ;;
  (if len unarchived >? 0 then
     out LogSampleHeader ;;
     forEach (firstn 5 unarchived)
       (fun thread =>
          out (LogSample (subject_text thread) (parties_text thread))) ;;
     if len unarchived >? 5
     then out (LogMore (len unarchived - 5))
     else ret tt
   else ret tt) ;;
  ret unarchived.

Definition confirmArchive (threadCount : Z) : M bool :=
  if includes (argv w) "--yes" || includes (argv w) "-y" then ret true
  else
    confirm <- inquirer_prompt threadCount ;;
    ret confirm.

(** The [for] loop of [archiveAll]: [rest] is [threads] from index [i]
    on, [n] is [threads.length]. *)
Fixpoint archive_loop (n i : Z) (rest : list Thread) : M unit :=
  match rest with
  | [] => ret tt
  | thread :: rest' =>
      out (SpinText (i + 1) n (subject_text thread)) ;;
      _ <- archiveThread (id thread) ;;
      emit (EvSleep 100) ;;
      archive_loop n (i + 1) rest'
  end.

Definition archiveAll (threads : list Thread) : M unit :=
  let isDryRun := includes (argv w) "--dry-run" in
  if isDryRun then
    out LogDryRun ;;
    forEach threads
      (fun thread =>
         out (LogWouldArchive (subject_text thread) (parties_text thread)))
  else
    out SpinArchiving ;;
    s <- get_stats ;;
    set_stats {| total := len threads; archived := archived s;
                 alreadyArchived := alreadyArchived s;
                 failed := failed s |} ;;
    archive_loop (len threads) 0 threads ;;
    out SpinArchived.

Definition displayStats : M unit :=
  out LogResults ;;
  s <- get_stats ;;
  out (LogProcessed (total s)) ;;
  out (LogArchived (archived s)) ;;
  if failed s >? 0 then out (LogFailed (failed s)) else ret tt.

Definition run (fuel : nat) : M unit :=
  try_catch
    (out LogTitle ;;
     allThreads <- getAllThreads fuel ;;
     if len allThreads =? 0 then out LogNoThreads
     else
       unarchivedThreads <- displayThreadInfo allThreads ;;
       if len unarchivedThreads =? 0 then out LogAllArchived
       else
         shouldArchive <- confirmArchive (len unarchivedThreads) ;;
         if negb shouldArchive then out LogCancelled
         else
           archiveAll unarchivedThreads ;;
           displayStats)
    (fun error =>
       out (ErrFatal (message error)) ;;
       process_exit 1).

(** [this.domain] and [this.baseUrl] *)
Definition domain : string :=
  Js.or_default (PIPEDRIVE_DOMAIN w) "api.pipedrive.com".

Definition baseUrl : string :=
  String.append "https://" (String.append domain "/api/v1").

Definition zero_stats : Stats :=
  {| total := 0; archived := 0; alreadyArchived := 0; failed := 0 |}.

Definition constructor : M unit :=
  (if negb (Js.truthy
              (match PIPEDRIVE_API_TOKEN w with
               | Some s => Js.Str s
               | None => Js.Undefined
               end))
   then out ErrNoToken ;; process_exit 1
   else ret tt) ;;
  set_stats zero_stats.

Record Options : Type := { help : bool; dryRun : bool; yes : bool }.

Definition parseArgs : M Options :=
  let args := skipn 2 (argv w) in
  let options :=
    {| help := includes args "--help" || includes args "-h";
       dryRun := includes args "--dry-run";
       yes := includes args "--yes" || includes args "-y" |} in
  (if help options then out LogHelp ;; process_exit 0 else ret tt) ;;
  ret options.

(** The three statements at the end of the script. *)
Definition main (fuel : nat) : M unit :=
  options <- parseArgs ;;
  constructor ;;
  run fuel.

End Archiver.

(** The state of the process when the script starts: nothing done yet. *)
Definition start_state : State :=
  {| stats := zero_stats; trace := []; n_get := 0; n_put := 0 |}.

(** ** Observations on traces *)

Definition get_requests (tr : list Event) : list (Z * Z) :=
  flat_map (fun ev => match ev with
                      | EvGet start limit => [(start, limit)]
                      | _ => []
                      end) tr.

Definition put_requests (tr : list Event) : list Z :=
  flat_map (fun ev => match ev with
                      | EvPut threadId _ => [threadId]
                      | _ => []
                      end) tr.

Definition prompts (tr : list Event) : list Z :=
  flat_map (fun ev => match ev with
                      | EvPrompt n => [n]
                      | _ => []
                      end) tr.

(** ** Vocabulary of the statements *)

(** [log evs st]: the state [st] after the events [evs] were recorded. *)
Definition log (evs : list Event) (st : State) : State :=
  {| stats := stats st; trace := trace st ++ evs;
     n_get := n_get st; n_put := n_put st |}.

(** The test [response.data.success] of [archiveThread], on the result of
    the PUT: a rejected request and a [null] body never pass it. *)
Definition acknowledged (r : PutResult) : bool :=
  match r with
  | PutOk (Some body) => Js.truthy (success body)
  | _ => false
  end.

(** The results of the PUTs of [archive_loop], when [k] PUTs were sent
    before. *)
Fixpoint put_responses (w : World) (k : nat) (threads : list Thread)
  : list PutResult :=
  match threads with
  | [] => []
  | thread :: rest => on_put w k (id thread) :: put_responses w (S k) rest
  end.

(** The result of the [j]-th request of [getAllThreads], when [k] GETs
    were sent before: the offset is [j] pages of [limit] threads. *)
Definition page_at (w : World) (k j : nat) : GetResult :=
  on_get w (k + j)%nat (limit * Z.of_nat j) limit.

(** The same, for a loop entered with the offset [start]. *)
Definition request_at (w : World) (k : nat) (start : Z) (j : nat) : GetResult :=
  on_get w (k + j)%nat (start + limit * Z.of_nat j) limit.

(** [data.data] of a page, no thread for a missing array. *)
Definition page_items (r : GetResult) : list Thread :=
  match r with
  | GetOk (Some body) =>
      match data body with
      | Some items => items
      | None => []
      end
  | _ => []
  end.

(** The pagination indicator of a page, read off the response:
    [additional_data.pagination.more_items_in_collection], falsy when the
    field or one of the objects on the way to it is missing. *)
Definition page_more (r : GetResult) : bool :=
  match r with
  | GetOk (Some {| additional_data :=
                     Some {| pagination :=
                               Some {| more_items_in_collection := v |} |} |})
    => Js.truthy v
  | _ => false
  end.

(** A page of at most [limit] threads, as the request asks for. *)
Definition within_limit (r : GetResult) : bool :=
  len (page_items r) <=? limit.

(** The request failed: [fetchMailThreads] throws this error. *)
Definition page_error (r : GetResult) : option JsError :=
  match r with
  | GetOk (Some _) => None
  | GetOk None => Some (type_error_null "data")
  | GetFail e => Some e
  end.

(** A page after which the loop asks for the next one. *)
Definition continues (r : GetResult) : bool :=
  match page_error r, page_items r with
  | None, _ :: _ => page_more r
  | _, _ => false
  end.

(** A page after which the loop ends: no thread, or the indicator is
    falsy. *)
Definition stops (r : GetResult) : bool :=
  match page_error r, page_items r with
  | None, _ :: _ => negb (page_more r)
  | None, [] => true
  | Some _, _ => false
  end.

(** The offsets of the first [n] requests. *)
Definition offsets (n : nat) : list (Z * Z) :=
  map (fun j => (limit * Z.of_nat j, limit)) (seq 0 n).

(** The threads of the first [n] pages. *)
Definition pages_items (w : World) (k n : nat) : list Thread :=
  List.concat (map (fun j => page_items (page_at w k j)) (seq 0 n)).

(** [keeps R m]: whatever the outcome of [m], the states before and after
    are related by [R]. *)
Definition keeps (R : State -> State -> Prop) {A} (m : M A) : Prop :=
  forall st, R st (snd (m st)).

(** Nothing was mutated: no PUT was sent and the statistics are as
    before. *)
Definition quiet (st st' : State) : Prop :=
  put_requests (trace st') = put_requests (trace st) /\
  n_put st' = n_put st /\
  stats st' = stats st.

(** The field [alreadyArchived] is as before. *)
Definition same_alreadyArchived (st st' : State) : Prop :=
  alreadyArchived (stats st') = alreadyArchived (stats st).

(** ** A sample inbox

    Two full pages and an empty one; threads 2 and 5 are archived already,
    and the service refuses to archive thread 3. *)

Definition sample_thread (i flag : Z) : Thread :=
  {| id := i; subject := Some "Offer";
     parties := Some {| to := Some [{| name := Some "Ann" |}]; from := None |};
     archived_flag := Js.Num flag |}.

Definition sample_page (threads : list Thread) (more : bool) : GetResult :=
  GetOk (Some {| data := Some threads;
                 additional_data :=
                   Some {| pagination :=
                             Some {| more_items_in_collection :=
                                       Js.Bool more |} |} |}).

Definition sample_inbox : list Thread :=
  [sample_thread 1 0; sample_thread 2 1; sample_thread 3 0;
   sample_thread 4 0; sample_thread 5 1].

Definition sample_error : JsError :=
  {| message := "Request failed with status code 500";
     response_error := Some "Server error" |}.

(** The sample service, started with the command line arguments [args];
    the user answers [answer] when asked. *)
Definition sample_world (args : list string) (answer : bool) : World :=
  {| argv := "node" :: "archiver.js" :: args;
     PIPEDRIVE_API_TOKEN := Some "token";
     PIPEDRIVE_DOMAIN := None;
     on_get := fun k _ _ =>
       match k with
       | 0%nat => sample_page (firstn 3 sample_inbox) true
       | 1%nat => sample_page (skipn 3 sample_inbox) true
       | _ => sample_page [] false
       end;
     on_put := fun _ i =>
       if i =? 3 then PutOk (Some {| success := Js.Bool false |})
       else PutOk (Some {| success := Js.Bool true |});
     on_prompt := fun _ => Answered answer |}.

(** The same service, whose second page cannot be fetched. *)
Definition broken_world : World :=
  {| argv := ["node"; "archiver.js"; "--yes"];
     PIPEDRIVE_API_TOKEN := Some "token";
     PIPEDRIVE_DOMAIN := None;
     on_get := fun k _ _ =>
       match k with
       | 0%nat => sample_page (firstn 3 sample_inbox) true
       | _ => GetFail sample_error
       end;
     on_put := fun _ _ => PutOk (Some {| success := Js.Bool true |});
     on_prompt := fun _ => Answered true |}.

(** ** Further observations and worlds *)

Definition sleeps (tr : list Event) : list Z :=
  flat_map (fun ev => match ev with
                      | EvSleep ms => [ms]
                      | _ => []
                      end) tr.

(** The preview lines of [displayThreadInfo]. *)
Definition samples (tr : list Event) : list (string * string) :=
  flat_map (fun ev => match ev with
                      | EvOut (LogSample s p) => [(s, p)]
                      | _ => []
                      end) tr.

(** The "... and n more" lines of [displayThreadInfo]. *)
Definition mores (tr : list Event) : list Z :=
  flat_map (fun ev => match ev with
                      | EvOut (LogMore n) => [n]
                      | _ => []
                      end) tr.

(** The PUTs and the pauses of a trace, in order. *)
Definition puts_and_pauses (tr : list Event) : list Event :=
  filter (fun ev => match ev with
                    | EvPut _ _ | EvSleep _ => true
                    | _ => false
                    end) tr.

(** Classes of events. *)
Definition is_output (ev : Event) : bool :=
  match ev with
  | EvOut _ => true
  | _ => false
  end.

Definition is_fetch (ev : Event) : bool :=
  match ev with
  | EvGet _ _ | EvOut _ => true
  | _ => false
  end.

Definition not_prompt (ev : Event) : bool :=
  match ev with
  | EvPrompt _ => false
  | _ => true
  end.

Definition not_get (ev : Event) : bool :=
  match ev with
  | EvGet _ _ => false
  | _ => true
  end.

(** [only p st st']: from [st] to [st'] the trace grew by events of the
    class [p] and by nothing else. *)
Definition only (p : Event -> bool) (st st' : State) : Prop :=
  exists d, trace st' = trace st ++ d /\ forallb p d = true.

(** The name of the first recipient of a thread, read off its fields:
    [parties.to[0].name], if all of it is there. *)
Definition recipient_name (thread : Thread) : option string :=
  match parties thread with
  | Some {| to := Some ({| name := n |} :: _) |} => n
  | _ => None
  end.

(** The name of its first sender: [parties.from[0].name]. *)
Definition sender_name (thread : Thread) : option string :=
  match parties thread with
  | Some {| from := Some ({| name := n |} :: _) |} => n
  | _ => None
  end.

(** The error [archiveThread] catches, if any. *)
Definition put_error (r : PutResult) : option JsError :=
  match r with
  | PutOk (Some _) => None
  | PutOk None => Some (type_error_null "success")
  | PutFail e => Some e
  end.

(** [!this.apiToken] *)
Definition token_missing (w : World) : bool :=
  match PIPEDRIVE_API_TOKEN w with
  | Some s => (s =? "")%string
  | None => true
  end.

(** A service answering the [k]-th GET with [pages k], refusing to archive
    thread 3, for a script started with [args] and the token [token]. *)
Definition world_of (args : list string) (token : option string)
    (pages : nat -> GetResult) (answer : PromptResult) : World :=
  {| argv := "node" :: "archiver.js" :: args;
     PIPEDRIVE_API_TOKEN := token;
     PIPEDRIVE_DOMAIN := Some "acme.pipedrive.com";
     on_get := fun k _ _ => pages k;
     on_put := fun _ i =>
       if i =? 3 then PutOk (Some {| success := Js.Bool false |})
       else PutOk (Some {| success := Js.Bool true |});
     on_prompt := fun _ => answer |}.

(** The sample inbox in two pages, the second one being the last: it has
    threads and its indicator is [false].  Asking for a third page fails. *)
Definition two_pages (k : nat) : GetResult :=
  match k with
  | 0%nat => sample_page (firstn 3 sample_inbox) true
  | 1%nat => sample_page (skipn 3 sample_inbox) false
  | _ => GetFail sample_error
  end.

(** The same, the last page coming without [additional_data]. *)
Definition two_pages_bare (k : nat) : GetResult :=
  match k with
  | 0%nat => sample_page (firstn 3 sample_inbox) true
  | 1%nat => GetOk (Some {| data := Some (skipn 3 sample_inbox);
                            additional_data := None |})
  | _ => GetFail sample_error
  end.

(** An inbox of one page. *)
Definition one_page (threads : list Thread) (k : nat) : GetResult :=
  sample_page threads false.

(** An inbox that always announces more. *)
Definition endless (k : nat) : GetResult :=
  sample_page [sample_thread (Z.of_nat k) 0] true.

(** * Properties *)

(** ** The monad *)

Lemma emit_log (ev : Event) (st : State) : emit ev st = (Ret tt, log [ev] st).
Proof. reflexivity. Qed.

Lemma out_log (m : Msg) (st : State) : out m st = (Ret tt, log [EvOut m] st).
Proof. reflexivity. Qed.

Lemma log_log (xs ys : list Event) (st : State) :
  log ys (log xs st) = log (xs ++ ys) st.
Proof. unfold log; simpl. now rewrite app_assoc. Qed.

Lemma log_nil (st : State) : log [] st = st.
Proof. destruct st; unfold log; simpl. now rewrite app_nil_r. Qed.

Lemma bind_Ret {A B} (m : M A) (k : A -> M B) (st st' : State) (a : A) :
  m st = (Ret a, st') -> bind m k st = k a st'.
Proof. unfold bind. now intros ->. Qed.

Lemma bind_Throw {A B} (m : M A) (k : A -> M B) (st st' : State) e :
  m st = (Throw e, st') -> bind m k st = (Throw e, st').
Proof. unfold bind. now intros ->. Qed.

Lemma bind_out {B} (m : Msg) (k : unit -> M B) (st : State) :
  bind (out m) k st = k tt (log [EvOut m] st).
Proof. reflexivity. Qed.

Lemma bind_assoc {A B C} (m : M A) (f : A -> M B) (g : B -> M C) st :
  bind (bind m f) g st = bind m (fun a => bind (f a) g) st.
Proof. unfold bind. destruct (m st) as [[a | e | c |] st']; reflexivity. Qed.

Lemma try_catch_Ret {A} (m : M A) h (st st' : State) (a : A) :
  m st = (Ret a, st') -> try_catch m h st = (Ret a, st').
Proof. unfold try_catch. now intros ->. Qed.

Lemma try_catch_bind_Ret {A B} (m : M A) (k : A -> M B) h st st' a :
  m st = (Ret a, st') -> try_catch (bind m k) h st = try_catch (k a) h st'.
Proof. unfold try_catch, bind. now intros ->. Qed.

Lemma try_catch_bind_Throw {A B} (m : M A) (k : A -> M B) h st st' e :
  m st = (Throw e, st') -> try_catch (bind m k) h st = h e st'.
Proof. unfold try_catch, bind. now intros ->. Qed.

Lemma try_catch_bind_Exit {A B} (m : M A) (k : A -> M B) h st st' c :
  m st = (Exit c, st') -> try_catch (bind m k) h st = (Exit c, st').
Proof. unfold try_catch, bind. now intros ->. Qed.

Lemma try_catch_bind_OutOfFuel {A B} (m : M A) (k : A -> M B) h st st' :
  m st = (OutOfFuel, st') -> try_catch (bind m k) h st = (OutOfFuel, st').
Proof. unfold try_catch, bind. now intros ->. Qed.

(** ** Observations *)

Lemma put_requests_app (xs ys : list Event) :
  put_requests (xs ++ ys) = put_requests xs ++ put_requests ys.
Proof. apply flat_map_app. Qed.

Lemma get_requests_app (xs ys : list Event) :
  get_requests (xs ++ ys) = get_requests xs ++ get_requests ys.
Proof. apply flat_map_app. Qed.

Lemma put_requests_out (f : Thread -> Msg) (threads : list Thread) :
  put_requests (map (fun t => EvOut (f t)) threads) = [].
Proof. induction threads as [| t ts IH]; simpl; auto. Qed.

Lemma get_requests_out (f : Thread -> Msg) (threads : list Thread) :
  get_requests (map (fun t => EvOut (f t)) threads) = [].
Proof. induction threads as [| t ts IH]; simpl; auto. Qed.

Lemma forEach_out (f : Thread -> Msg) (threads : list Thread) (st : State) :
  forEach threads (fun t => out (f t)) st
  = (Ret tt, log (map (fun t => EvOut (f t)) threads) st).
Proof.
  revert st; induction threads as [| t ts IH]; intros st; simpl.
  - now rewrite log_nil.
  - rewrite bind_out, IH, log_log. reflexivity.
Qed.

(** ** Rules for [keeps] *)

Section Keeps.

Variable R : State -> State -> Prop.
Hypothesis R_refl : forall st, R st st.
Hypothesis R_trans : forall a b c, R a b -> R b c -> R a c.

Lemma keeps_ret {A} (a : A) : keeps R (ret a).
Proof. intros st; apply R_refl. Qed.

Lemma keeps_throw {A} e : keeps R (@throw A e).
Proof. intros st; apply R_refl. Qed.

Lemma keeps_process_exit {A} c : keeps R (@process_exit A c).
Proof. intros st; apply R_refl. Qed.

Lemma keeps_out_of_fuel {A} : keeps R (@out_of_fuel A).
Proof. intros st; apply R_refl. Qed.

Lemma keeps_get_stats : keeps R get_stats.
Proof. intros st; apply R_refl. Qed.

Lemma keeps_bind {A B} (m : M A) (k : A -> M B) :
  keeps R m -> (forall a, keeps R (k a)) -> keeps R (bind m k).
Proof.
  intros Hm Hk st. unfold bind.
  specialize (Hm st).
  destruct (m st) as [[a | e | c |] st1]; simpl in *; auto.
  eapply R_trans; [exact Hm | apply Hk].
Qed.

Lemma keeps_try_catch {A} (m : M A) (h : JsError -> M A) :
  keeps R m -> (forall e, keeps R (h e)) -> keeps R (try_catch m h).
Proof.
  intros Hm Hh st. unfold try_catch.
  specialize (Hm st).
  destruct (m st) as [[a | e | c |] st1]; simpl in *; auto.
  eapply R_trans; [exact Hm | apply Hh].
Qed.

Lemma keeps_if {A} (b : bool) (m1 m2 : M A) :
  keeps R m1 -> keeps R m2 -> keeps R (if b then m1 else m2).
Proof. now destruct b. Qed.

Lemma keeps_forEach {A} (xs : list A) (f : A -> M unit) :
  (forall x, keeps R (f x)) -> keeps R (forEach xs f).
Proof.
  intros Hf. induction xs as [| x xs IH]; simpl.
  - apply keeps_ret.
  - apply keeps_bind; auto.
Qed.

End Keeps.

Lemma quiet_refl (st : State) : quiet st st.
Proof. now repeat split. Qed.

Lemma quiet_trans (a b c : State) : quiet a b -> quiet b c -> quiet a c.
Proof.
  unfold quiet. intros (H1 & H2 & H3) (H4 & H5 & H6).
  repeat split; congruence.
Qed.

Lemma same_alreadyArchived_refl (st : State) : same_alreadyArchived st st.
Proof. reflexivity. Qed.

Lemma same_alreadyArchived_trans (a b c : State) :
  same_alreadyArchived a b -> same_alreadyArchived b c ->
  same_alreadyArchived a c.
Proof. unfold same_alreadyArchived. congruence. Qed.

Lemma quiet_same_alreadyArchived (st st' : State) :
  quiet st st' -> same_alreadyArchived st st'.
Proof. intros (_ & _ & H). unfold same_alreadyArchived. now rewrite H. Qed.

Create HintDb keeps.

#[local] Hint Resolve quiet_refl quiet_trans
  same_alreadyArchived_refl same_alreadyArchived_trans : keeps.
#[local] Hint Resolve keeps_ret keeps_throw keeps_process_exit
  keeps_out_of_fuel keeps_get_stats : keeps.

(** Solves [keeps R m] along the structure of [m], R being [quiet] or
    [same_alreadyArchived]. *)
Ltac keeps_step :=
  match goal with
  | |- keeps _ (bind _ _) => apply keeps_bind; [eauto with keeps .. | intros ?]
  | |- keeps _ (try_catch _ _) =>
      apply keeps_try_catch; [eauto with keeps .. | intros ?]
  | |- keeps _ (forEach _ _) => apply keeps_forEach; [eauto with keeps .. | intros ?]
  | |- keeps _ (if ?b then _ else _) => destruct b
  | |- keeps _ (match ?x with _ => _ end) => destruct x
  | |- keeps _ _ => solve [eauto with keeps]
  end.

Ltac keeps_auto := repeat keeps_step.

(** *** Operations that mutate nothing *)

Lemma quiet_emit (ev : Event) :
  (forall i f, ev <> EvPut i f) -> keeps quiet (emit ev).
Proof.
  intros Hev st. unfold quiet; simpl.
  rewrite put_requests_app. repeat split.
  destruct ev; simpl; try now rewrite app_nil_r.
  now elim (Hev threadId flag).
Qed.

Lemma quiet_out (m : Msg) : keeps quiet (out m).
Proof. apply quiet_emit. discriminate. Qed.

Lemma quiet_axios_get (w : World) (start lim : Z) :
  keeps quiet (axios_get w start lim).
Proof.
  intros st. unfold axios_get.
  destruct (on_get w (n_get st) start lim); unfold quiet; simpl;
    rewrite put_requests_app; simpl; now rewrite app_nil_r.
Qed.

#[local] Hint Resolve quiet_out quiet_axios_get : keeps.

Lemma quiet_fetchMailThreads (w : World) (start lim : Z) :
  keeps quiet (fetchMailThreads w start lim).
Proof. unfold fetchMailThreads. keeps_auto. Qed.

#[local] Hint Resolve quiet_fetchMailThreads : keeps.

Lemma quiet_while_hasMore (w : World) (fuel : nat) :
  forall hasMore allThreads start,
    keeps quiet (while_hasMore w fuel hasMore allThreads start).
Proof.
  induction fuel as [| fuel IH]; intros hasMore allThreads start;
    destruct hasMore; simpl; auto with keeps.
  keeps_auto.
Qed.

#[local] Hint Resolve quiet_while_hasMore : keeps.

Lemma quiet_getAllThreads (w : World) (fuel : nat) :
  keeps quiet (getAllThreads w fuel).
Proof. unfold getAllThreads. keeps_auto. Qed.

Lemma quiet_displayThreadInfo (threads : list Thread) :
  keeps quiet (displayThreadInfo threads).
Proof. unfold displayThreadInfo. keeps_auto. Qed.

Lemma quiet_confirmArchive (w : World) (threadCount : Z) :
  keeps quiet (confirmArchive w threadCount).
Proof.
  unfold confirmArchive, inquirer_prompt. keeps_auto.
  apply quiet_emit. discriminate.
Qed.

Lemma quiet_displayStats : keeps quiet displayStats.
Proof. unfold displayStats. keeps_auto. Qed.

#[local] Hint Resolve quiet_getAllThreads quiet_displayThreadInfo
  quiet_confirmArchive quiet_displayStats : keeps.

(** ** [displayThreadInfo] *)

Lemma filter_split_Permutation {A} (f : A -> bool) (xs : list A) :
  Permutation (filter (fun x => negb (f x)) xs ++ filter f xs) xs.
Proof.
  induction xs as [| x xs IH]; simpl; [constructor |].
  destruct (f x); simpl.
  - symmetry. apply Permutation_cons_app. now symmetry.
  - now constructor.
Qed.

Lemma displayThreadInfo_returns (threads : list Thread) (st : State) :
  fst (displayThreadInfo threads st) = Ret (unarchived_threads threads).
Proof.
  unfold displayThreadInfo.
  rewrite !bind_out.
  destruct (len (unarchived_threads threads) >? 0).
  - rewrite bind_assoc, bind_out, bind_assoc.
    rewrite (bind_Ret _ _ _ _ _
               (forEach_out (fun t => LogSample (subject_text t)
                                        (parties_text t)) _ _)).
    destruct (len (unarchived_threads threads) >? 5); reflexivity.
  - reflexivity.
Qed.

Lemma displayThreadInfo_eq (threads : list Thread) (st : State) :
  displayThreadInfo threads st
  = (Ret (unarchived_threads threads), snd (displayThreadInfo threads st)).
Proof.
  rewrite <- (displayThreadInfo_returns threads st).
  now destruct (displayThreadInfo threads st).
Qed.

(** C7.  [displayThreadInfo] splits the threads in two groups, the
    unarchived ones (falsy [archived_flag]), which it returns, and the
    archived ones (truthy [archived_flag]).  Every thread of the input is in
    exactly one group, the two groups together are the input up to order,
    and their lengths add up to the number of threads. *)
Theorem displayThreadInfo_partition (threads : list Thread) (st : State) :
  let u := unarchived_threads threads in
  let a := archived_threads threads in
  fst (displayThreadInfo threads st) = Ret u /\
  (forall t, In t u <-> In t threads /\ Js.truthy (archived_flag t) = false) /\
  (forall t, In t a <-> In t threads /\ Js.truthy (archived_flag t) = true) /\
  (forall t, In t threads -> (In t u /\ ~ In t a) \/ (In t a /\ ~ In t u)) /\
  Permutation (u ++ a) threads /\
  len u + len a = len threads.
Proof.
  intros u a. subst u a. unfold unarchived_threads, archived_threads.
  split; [apply displayThreadInfo_returns |].
  split.
  { intros t. rewrite filter_In, negb_true_iff. reflexivity. }
  split.
  { intros t. rewrite filter_In. reflexivity. }
  split.
  { intros t Ht. rewrite !filter_In, negb_true_iff.
    destruct (Js.truthy (archived_flag t)) eqn:E.
    - right. split; [now split |]. intros [_ H]; discriminate.
    - left. split; [now split |]. intros [_ H]; discriminate. }
  pose proof (filter_split_Permutation
                (fun t => Js.truthy (archived_flag t)) threads) as HP.
  split; [exact HP |].
  apply Permutation_length in HP. rewrite length_app in HP.
  unfold len. lia.
Qed.

(** ** [confirmArchive] *)

(** C9.  With [--yes] or [-y] on the command line, [confirmArchive]
    returns true at once, for every thread count: the state is untouched, so
    no prompt was shown ([inquirer_prompt] records every prompt in the
    trace), and the answer the user would give is irrelevant. *)
Theorem confirmArchive_yes (w : World) (threadCount : Z) (st : State) :
  includes (argv w) "--yes" = true \/ includes (argv w) "-y" = true ->
  confirmArchive w threadCount st = (Ret true, st) /\
  prompts (trace (snd (confirmArchive w threadCount st))) = prompts (trace st).
Proof.
  intros H. unfold confirmArchive.
  assert (E : includes (argv w) "--yes" || includes (argv w) "-y" = true)
    by (apply orb_true_iff; exact H).
  rewrite E. split; reflexivity.
Qed.

Lemma confirmArchive_yes_witness :
  confirmArchive (sample_world ["-y"] false) 3 start_state
  = (Ret true, start_state) /\
  prompts (trace (snd (confirmArchive (sample_world ["-y"] false) 3
                         start_state)))
  = prompts (trace start_state).
Proof.
  apply (confirmArchive_yes (sample_world ["-y"] false) 3 start_state).
  right. reflexivity.
Defined.

(** Without the flag the prompt is shown, and its answer is returned. *)
Lemma confirmArchive_asks (w : World) (threadCount : Z) (st : State) :
  includes (argv w) "--yes" = false -> includes (argv w) "-y" = false ->
  confirmArchive w threadCount st
  = match on_prompt w threadCount with
    | Answered confirm => (Ret confirm, log [EvPrompt threadCount] st)
    | PromptFail e => (Throw e, log [EvPrompt threadCount] st)
    end.
Proof.
  intros H1 H2. unfold confirmArchive, inquirer_prompt. rewrite H1, H2. simpl.
  unfold bind. rewrite emit_log.
  destruct (on_prompt w threadCount); reflexivity.
Qed.

(** ** [archiveAll], dry run *)

Lemma archiveAll_dry (w : World) (threads : list Thread) (st : State) :
  includes (argv w) "--dry-run" = true ->
  archiveAll w threads st
  = (Ret tt,
     log (EvOut LogDryRun ::
          map (fun t => EvOut (LogWouldArchive (subject_text t)
                                 (parties_text t))) threads) st).
Proof.
  intros H. unfold archiveAll. rewrite H.
  rewrite bind_out.
  rewrite (forEach_out (fun t => LogWouldArchive (subject_text t)
                                   (parties_text t))).
  now rewrite log_log.
Qed.

Lemma quiet_archiveAll_dry (w : World) (threads : list Thread) (st : State) :
  includes (argv w) "--dry-run" = true ->
  quiet st (snd (archiveAll w threads st)).
Proof.
  intros H. rewrite (archiveAll_dry w threads st H).
  unfold quiet. simpl. rewrite put_requests_app. simpl.
  rewrite (put_requests_out (fun t => LogWouldArchive (subject_text t)
                                        (parties_text t))).
  now rewrite app_nil_r.
Qed.

(** C2.  In a dry run [archiveAll] returns after writing the banner and
    one "would archive" line per thread, whatever the number of threads: no
    PUT and no GET is sent, and the statistics are untouched. *)
Theorem archiveAll_dry_run (w : World) (threads : list Thread) (st : State) :
  includes (argv w) "--dry-run" = true ->
  let st' := snd (archiveAll w threads st) in
  archiveAll w threads st
  = (Ret tt,
     log (EvOut LogDryRun ::
          map (fun t => EvOut (LogWouldArchive (subject_text t)
                                 (parties_text t))) threads) st) /\
  put_requests (trace st') = put_requests (trace st) /\
  get_requests (trace st') = get_requests (trace st) /\
  n_put st' = n_put st /\ n_get st' = n_get st /\
  stats st' = stats st.
Proof.
  intros H st'. subst st'.
  destruct (quiet_archiveAll_dry w threads st H) as (Q1 & Q2 & Q3).
  rewrite (archiveAll_dry w threads st H) in *.
  simpl in *. rewrite get_requests_app. simpl.
  rewrite (get_requests_out (fun t => LogWouldArchive (subject_text t)
                                        (parties_text t))).
  rewrite app_nil_r. repeat split; assumption.
Qed.

Lemma archiveAll_dry_run_witness :
  let w := sample_world ["--dry-run"] true in
  let st' := snd (archiveAll w sample_inbox start_state) in
  archiveAll w sample_inbox start_state
  = (Ret tt,
     log (EvOut LogDryRun ::
          map (fun t => EvOut (LogWouldArchive (subject_text t)
                                 (parties_text t))) sample_inbox)
       start_state) /\
  put_requests (trace st') = put_requests (trace start_state) /\
  get_requests (trace st') = get_requests (trace start_state) /\
  n_put st' = n_put start_state /\ n_get st' = n_get start_state /\
  stats st' = stats start_state.
Proof.
  intros w.
  apply (archiveAll_dry_run w sample_inbox start_state).
  reflexivity.
Defined.

(** ** [archiveThread] and the archiving loop *)

(** [archiveThread] never throws: it answers whether the PUT was
    acknowledged and counts it, as archived or as failed. *)
Lemma archiveThread_spec (w : World) (i : Z) (st : State) :
  let ok := acknowledged (on_put w (n_put st) i) in
  exists st',
    archiveThread w i st = (Ret ok, st') /\
    total (stats st') = total (stats st) /\
    alreadyArchived (stats st') = alreadyArchived (stats st) /\
    archived (stats st') = archived (stats st) + (if ok then 1 else 0) /\
    failed (stats st') = failed (stats st) + (if ok then 0 else 1) /\
    put_requests (trace st') = put_requests (trace st) ++ [i] /\
    get_requests (trace st') = get_requests (trace st) /\
    n_put st' = S (n_put st) /\
    n_get st' = n_get st.
Proof.
  intros ok. subst ok.
  unfold archiveThread, try_catch, bind, axios_put.
  destruct (on_put w (n_put st) i) as [[body |] | e]; simpl.
  - destruct (Js.truthy (success body)); simpl;
      eexists; (split; [reflexivity |]); simpl;
      rewrite put_requests_app, get_requests_app; simpl;
      rewrite ?app_nil_r; repeat split; lia.
  - eexists; (split; [reflexivity |]); simpl.
    rewrite !put_requests_app, !get_requests_app; simpl.
    rewrite ?app_nil_r; repeat split; lia.
  - eexists; (split; [reflexivity |]); simpl.
    rewrite !put_requests_app, !get_requests_app; simpl.
    rewrite ?app_nil_r; repeat split; lia.
Qed.

Lemma archive_loop_spec (w : World) (n : Z) (rest : list Thread) :
  forall (j : Z) (st : State),
    let rs := put_responses w (n_put st) rest in
    exists st',
      archive_loop w n j rest st = (Ret tt, st') /\
      total (stats st') = total (stats st) /\
      alreadyArchived (stats st') = alreadyArchived (stats st) /\
      archived (stats st') = archived (stats st) + len (filter acknowledged rs) /\
      failed (stats st')
      = failed (stats st) + len (filter (fun r => negb (acknowledged r)) rs) /\
      put_requests (trace st') = put_requests (trace st) ++ map id rest /\
      get_requests (trace st') = get_requests (trace st) /\
      n_put st' = (n_put st + List.length rest)%nat /\
      n_get st' = n_get st.
Proof.
  induction rest as [| thread rest IH]; intros j st rs; subst rs.
  - exists st. simpl. unfold len; simpl.
    rewrite app_nil_r. repeat split; lia.
  - simpl archive_loop. rewrite bind_out.
    destruct (archiveThread_spec w (id thread)
                (log [EvOut (SpinText (j + 1) n (subject_text thread))] st))
      as (st1 & E1 & T1 & A1 & Ar1 & F1 & P1 & G1 & NP1 & NG1).
    simpl in *.
    rewrite (bind_Ret _ _ _ _ _ E1).
    unfold bind at 1. rewrite emit_log.
    destruct (IH (j + 1) (log [EvSleep 100] st1))
      as (st2 & E2 & T2 & A2 & Ar2 & F2 & P2 & G2 & NP2 & NG2).
    simpl in *.
    exists st2. split; [exact E2 |].
    rewrite put_requests_app, get_requests_app in *. simpl in *.
    rewrite app_nil_r in *.
    rewrite NP1 in *.
    rewrite T2, A2, Ar2, F2, P2, G2, NP2, NG2.
    rewrite T1, A1, Ar1, F1, P1, G1, NG1.
    rewrite <- app_assoc. simpl.
    destruct (acknowledged (on_put w (n_put st) (id thread))); simpl;
      unfold len in *; simpl List.length; repeat split; lia.
Qed.

(** Out of a dry run, [archiveAll] records the number of threads and then
    sends one PUT per thread, in order, whatever the answers. *)
Lemma archiveAll_spec (w : World) (threads : list Thread) (st : State) :
  includes (argv w) "--dry-run" = false ->
  let rs := put_responses w (n_put st) threads in
  exists st',
    archiveAll w threads st = (Ret tt, st') /\
    total (stats st') = len threads /\
    alreadyArchived (stats st') = alreadyArchived (stats st) /\
    archived (stats st') = archived (stats st) + len (filter acknowledged rs) /\
    failed (stats st')
    = failed (stats st) + len (filter (fun r => negb (acknowledged r)) rs) /\
    put_requests (trace st') = put_requests (trace st) ++ map id threads /\
    get_requests (trace st') = get_requests (trace st) /\
    n_put st' = (n_put st + List.length threads)%nat /\
    n_get st' = n_get st.
Proof.
  intros H rs. subst rs. unfold archiveAll. rewrite H.
  rewrite bind_out. unfold bind at 1. unfold get_stats.
  unfold bind at 1. unfold set_stats.
  match goal with
  | |- context [bind (archive_loop w ?n ?j threads) _ ?s] =>
      destruct (archive_loop_spec w n threads j s)
        as (st1 & E1 & T1 & A1 & Ar1 & F1 & P1 & G1 & NP1 & NG1)
  end.
  simpl in *.
  rewrite (bind_Ret _ _ _ _ _ E1). rewrite out_log.
  eexists; split; [reflexivity |]. simpl.
  rewrite put_requests_app, get_requests_app in *. simpl in *.
  rewrite !app_nil_r in *.
  repeat split; assumption.
Qed.

Lemma filter_negb_length {A} (f : A -> bool) (xs : list A) :
  len (filter f xs) + len (filter (fun x => negb (f x)) xs) = len xs.
Proof.
  unfold len. induction xs as [| x xs IH]; simpl; [reflexivity |].
  destruct (f x); simpl List.length; lia.
Qed.

Lemma put_responses_length (w : World) (threads : list Thread) :
  forall k, List.length (put_responses w k threads) = List.length threads.
Proof. induction threads as [| t ts IH]; intros k; simpl; auto. Qed.

Lemma acknowledged_iff (r : PutResult) :
  acknowledged r = true <->
  exists body, r = PutOk (Some body) /\ Js.truthy (success body) = true.
Proof.
  split.
  - destruct r as [[body |] | e]; simpl; try discriminate.
    intros H. now exists body.
  - intros (body & -> & H). exact H.
Qed.

(** C3.  Three threads, two PUTs acknowledged and one not: [archiveAll]
    on a new archiver leaves [archived = 2], [failed = 1], [total = 3]. *)
Theorem archiveAll_two_of_three (w : World) (threads : list Thread)
    (st : State) :
  includes (argv w) "--dry-run" = false ->
  stats st = zero_stats ->
  List.length threads = 3%nat ->
  List.length (filter acknowledged (put_responses w (n_put st) threads))
  = 2%nat ->
  exists st',
    archiveAll w threads st = (Ret tt, st') /\
    stats st'
    = {| total := 3; archived := 2; alreadyArchived := 0; failed := 1 |}.
Proof.
  intros Hdry Hzero H3 H2.
  destruct (archiveAll_spec w threads st Hdry)
    as (st' & E & T & A & Ar & F & _).
  exists st'. split; [exact E |].
  pose proof (filter_negb_length acknowledged
                (put_responses w (n_put st) threads)) as HL.
  unfold len in *. rewrite put_responses_length in HL.
  rewrite Hzero in *. simpl in *.
  destruct (stats st') as [t a aa f]; simpl in *.
  f_equal; lia.
Qed.

Lemma archiveAll_two_of_three_witness :
  exists st',
    archiveAll (sample_world [] true) (unarchived_threads sample_inbox)
      start_state = (Ret tt, st') /\
    stats st'
    = {| total := 3; archived := 2; alreadyArchived := 0; failed := 1 |}.
Proof.
  apply (archiveAll_two_of_three (sample_world [] true)
           (unarchived_threads sample_inbox) start_state);
    reflexivity.
Defined.

(** C4.  [archiveThread] returns true exactly when the PUT resolved with
    a body whose [success] is truthy.  A rejected request and a response
    without acknowledgment are failures alike: [failed] is incremented,
    false is returned and nothing is thrown.  The loop of [archiveAll]
    therefore reaches every thread: one PUT per thread, in order, whatever
    the number of failures, each of which is counted. *)
Theorem archiveThread_failure_not_fatal (w : World) (i : Z) (st : State)
    (threads : list Thread) (st0 : State) :
  includes (argv w) "--dry-run" = false ->
  let r := on_put w (n_put st) i in
  let rs := put_responses w (n_put st0) threads in
  (acknowledged r = true <->
   exists body, r = PutOk (Some body) /\ Js.truthy (success body) = true) /\
  (exists st',
     archiveThread w i st = (Ret (acknowledged r), st') /\
     put_requests (trace st') = put_requests (trace st) ++ [i] /\
     (acknowledged r = true ->
      archived (stats st') = archived (stats st) + 1 /\
      failed (stats st') = failed (stats st)) /\
     (acknowledged r = false ->
      archived (stats st') = archived (stats st) /\
      failed (stats st') = failed (stats st) + 1)) /\
  (exists st0',
     archiveAll w threads st0 = (Ret tt, st0') /\
     put_requests (trace st0') = put_requests (trace st0) ++ map id threads /\
     failed (stats st0')
     = failed (stats st0)
       + len (filter (fun r => negb (acknowledged r)) rs) /\
     archived (stats st0')
     = archived (stats st0) + len (filter acknowledged rs)).
Proof.
  intros Hdry r rs. subst r rs.
  split; [apply acknowledged_iff |].
  split.
  - destruct (archiveThread_spec w i st)
      as (st' & E & _ & _ & Ar & F & P & _).
    exists st'. repeat split; try assumption;
      rewrite H in *; lia.
  - destruct (archiveAll_spec w threads st0 Hdry)
      as (st' & E & _ & _ & Ar & F & P & _).
    exists st'. repeat split; assumption.
Qed.

Lemma archiveThread_failure_not_fatal_witness :
  let w := sample_world [] true in
  let threads := unarchived_threads sample_inbox in
  let r := on_put w (n_put start_state) 3 in
  let rs := put_responses w (n_put start_state) threads in
  (acknowledged r = true <->
   exists body, r = PutOk (Some body) /\ Js.truthy (success body) = true) /\
  (exists st',
     archiveThread w 3 start_state = (Ret (acknowledged r), st') /\
     put_requests (trace st') = put_requests (trace start_state) ++ [3] /\
     (acknowledged r = true ->
      archived (stats st') = archived (stats start_state) + 1 /\
      failed (stats st') = failed (stats start_state)) /\
     (acknowledged r = false ->
      archived (stats st') = archived (stats start_state) /\
      failed (stats st') = failed (stats start_state) + 1)) /\
  (exists st0',
     archiveAll w threads start_state = (Ret tt, st0') /\
     put_requests (trace st0')
     = put_requests (trace start_state) ++ map id threads /\
     failed (stats st0')
     = failed (stats start_state)
       + len (filter (fun r => negb (acknowledged r)) rs) /\
     archived (stats st0')
     = archived (stats start_state) + len (filter acknowledged rs)).
Proof.
  intros w threads.
  apply (archiveThread_failure_not_fatal w 3 start_state threads start_state).
  reflexivity.
Defined.

(** ** [fetchMailThreads] and [getAllThreads] *)

Lemma fetchMailThreads_ok (w : World) (start lim : Z) (st : State) body :
  on_get w (n_get st) start lim = GetOk (Some body) ->
  fetchMailThreads w start lim st
  = (Ret body,
     {| stats := stats st;
        trace := trace st ++ [EvOut (SpinFetching start); EvGet start lim;
                              EvOut (SpinFetched (fetched_count body))];
        n_get := S (n_get st); n_put := n_put st |}).
Proof.
  intros H. unfold fetchMailThreads, try_catch, bind, axios_get; simpl.
  rewrite H; simpl. rewrite <- !app_assoc. reflexivity.
Qed.

Lemma fetchMailThreads_error (w : World) (start lim : Z) (st : State) e :
  page_error (on_get w (n_get st) start lim) = Some e ->
  fetchMailThreads w start lim st
  = (Throw e,
     {| stats := stats st;
        trace := trace st ++ [EvOut (SpinFetching start); EvGet start lim;
                              EvOut SpinFetchFailed;
                              EvOut (ErrFetch (error_text e))];
        n_get := S (n_get st); n_put := n_put st |}).
Proof.
  intros H. unfold fetchMailThreads, try_catch, bind, axios_get; simpl.
  destruct (on_get w (n_get st) start lim) as [[body |] | e']; simpl in *;
    inversion H; subst; rewrite <- !app_assoc; reflexivity.
Qed.

Lemma request_at_S (w : World) (k : nat) (start : Z) (j : nat) :
  request_at w k start (S j) = request_at w (S k) (start + limit) j.
Proof.
  unfold request_at. f_equal; lia.
Qed.

Lemma request_at_0 (w : World) (k : nat) (start : Z) :
  request_at w k start 0 = on_get w k start limit.
Proof.
  unfold request_at. f_equal; lia.
Qed.

Lemma page_at_request_at (w : World) (k j : nat) :
  page_at w k j = request_at w k 0 j.
Proof. reflexivity. Qed.

(** The indicator of the response is what the loop reads. *)
Lemma page_more_body (body : ListBody) :
  page_more (GetOk (Some body)) = Js.truthy (more_items body).
Proof.
  destruct body as [d [[[[v] |]] |]]; reflexivity.
Qed.

Lemma continues_inv (r : GetResult) :
  continues r = true ->
  exists body t ts,
    r = GetOk (Some body) /\ data body = Some (t :: ts) /\
    Js.truthy (more_items body) = true.
Proof.
  destruct r as [[body |] | e]; [| simpl; discriminate | simpl; discriminate].
  unfold continues. cbn [page_error page_items]. rewrite page_more_body.
  destruct (data body) as [[| t ts] |] eqn:E; try discriminate.
  intros H. now exists body, t, ts.
Qed.

Lemma stops_inv (r : GetResult) :
  stops r = true ->
  exists body,
    r = GetOk (Some body) /\
    (page_items r = [] \/ Js.truthy (more_items body) = false).
Proof.
  destruct r as [[body |] | e]; [| simpl; discriminate | simpl; discriminate].
  unfold stops. cbn [page_error page_items]. rewrite page_more_body.
  destruct (data body) as [[| t ts] |] eqn:E; intros H; exists body;
    (split; [reflexivity |]); auto.
  right. now apply negb_true_iff.
Qed.

(** The loop, entered with [k] requests sent before: after [n] pages that
    continue and one that stops it returns what it had, followed by the
    threads of these pages, having asked for them one by one. *)
Lemma while_hasMore_returns (w : World) (n : nat) :
  forall (fuel : nat) (allThreads : list Thread) (start : Z) (st : State),
    (forall j, (j < n)%nat ->
               continues (request_at w (n_get st) start j) = true) ->
    stops (request_at w (n_get st) start n) = true ->
    (n < fuel)%nat ->
    exists st',
      while_hasMore w fuel true allThreads start st
      = (Ret (allThreads ++
              List.concat (map (fun j => page_items
                                           (request_at w (n_get st) start j))
                             (seq 0 (S n)))), st') /\
      get_requests (trace st')
      = get_requests (trace st)
        ++ map (fun j => (start + limit * Z.of_nat j, limit)) (seq 0 (S n)) /\
      n_get st' = (n_get st + S n)%nat.
Proof.
  induction n as [| n IH]; intros fuel allThreads start st Hc Hs Hf;
    (destruct fuel as [| fuel]; [lia |]).
  - rewrite request_at_0 in Hs.
    destruct (stops_inv _ Hs) as (body & Eb & Hstop).
    simpl while_hasMore.
    rewrite (bind_Ret _ _ _ _ _ (fetchMailThreads_ok w start limit st body Eb)).
    eexists.
    assert (E0 : request_at w (n_get st) start 0 = GetOk (Some body))
      by (rewrite request_at_0; exact Eb).
    cbn [seq map List.concat]. rewrite E0, app_nil_r.
    rewrite Eb in Hstop. unfold stops in Hs. rewrite Eb in Hs.
    simpl in Hstop, Hs |- *.
    destruct (data body) as [[| t ts] |] eqn:Ed.
    + destruct fuel; simpl; rewrite app_nil_r;
        (split; [reflexivity |]); simpl;
        rewrite get_requests_app; simpl;
        (split; [do 3 f_equal; lia | lia]).
    + destruct Hstop as [Hstop | Hstop]; [discriminate |].
      rewrite Hstop. simpl.
      destruct fuel; simpl;
        (split; [reflexivity |]); simpl;
        rewrite get_requests_app; simpl;
        (split; [do 3 f_equal; lia | lia]).
    + destruct fuel; simpl; rewrite app_nil_r;
        (split; [reflexivity |]); simpl;
        rewrite get_requests_app; simpl;
        (split; [do 3 f_equal; lia | lia]).
  - assert (Hc0 := Hc 0%nat ltac:(lia)).
    rewrite request_at_0 in Hc0.
    destruct (continues_inv _ Hc0) as (body & t & ts & Eb & Ed & Hm).
    simpl while_hasMore.
    rewrite (bind_Ret _ _ _ _ _ (fetchMailThreads_ok w start limit st body Eb)).
    rewrite Ed, Hm. change (negb true) with false. cbv iota.
    match goal with
    | |- context [while_hasMore w fuel true ?acc ?s ?st1] =>
        destruct (IH fuel acc s st1) as (st' & E & G & N)
    end.
    + intros j Hj. simpl n_get. rewrite <- request_at_S. apply Hc. lia.
    + simpl n_get. rewrite <- request_at_S. exact Hs.
    + lia.
    + exists st'. simpl n_get in *. simpl trace in *.
      split; [| split].
      * rewrite E. f_equal.
        rewrite <- app_assoc. f_equal.
        change (seq 0 (S (S n))) with (0%nat :: seq 1 (S n)).
        rewrite <- seq_shift. cbn [map List.concat]. rewrite map_map.
        assert (E0 : request_at w (n_get st) start 0 = GetOk (Some body))
          by (rewrite request_at_0; exact Eb).
        rewrite E0. simpl page_items. rewrite Ed.
        rewrite (map_ext
                   (fun j => page_items (request_at w (n_get st) start (S j)))
                   (fun j => page_items
                               (request_at w (S (n_get st)) (start + limit) j)))
          by (intros j; now rewrite request_at_S).
        reflexivity.
      * rewrite G. rewrite get_requests_app. simpl get_requests.
        rewrite <- app_assoc.
        change (seq 0 (S (S n))) with (0%nat :: seq 1 (S n)).
        rewrite <- seq_shift. cbn [map app]. rewrite map_map.
        rewrite (map_ext
                   (fun j => (start + limit * Z.of_nat (S j), limit))
                   (fun j => (start + limit + limit * Z.of_nat j, limit)))
          by (intros j; f_equal; lia).
        replace (start + limit * Z.of_nat 0) with start by lia.
        reflexivity.
      * lia.
Qed.

(** After [n] pages that continue, a page that cannot be fetched makes
    the loop throw the error of the request. *)
Lemma while_hasMore_throws (w : World) (n : nat) :
  forall (fuel : nat) (allThreads : list Thread) (start : Z) (st : State) e,
    (forall j, (j < n)%nat ->
               continues (request_at w (n_get st) start j) = true) ->
    page_error (request_at w (n_get st) start n) = Some e ->
    (n < fuel)%nat ->
    exists st',
      while_hasMore w fuel true allThreads start st = (Throw e, st') /\
      get_requests (trace st')
      = get_requests (trace st)
        ++ map (fun j => (start + limit * Z.of_nat j, limit)) (seq 0 (S n)).
Proof.
  induction n as [| n IH]; intros fuel allThreads start st e Hc He Hf;
    (destruct fuel as [| fuel]; [lia |]).
  - rewrite request_at_0 in He.
    simpl while_hasMore.
    rewrite (bind_Throw _ _ _ _ _ (fetchMailThreads_error w _ _ _ _ He)).
    eexists. split; [reflexivity |]. simpl.
    rewrite get_requests_app. simpl. do 3 f_equal. lia.
  - assert (Hc0 := Hc 0%nat ltac:(lia)).
    rewrite request_at_0 in Hc0.
    destruct (continues_inv _ Hc0) as (body & t & ts & Eb & Ed & Hm).
    simpl while_hasMore.
    rewrite (bind_Ret _ _ _ _ _ (fetchMailThreads_ok w start limit st body Eb)).
    rewrite Ed, Hm. change (negb true) with false. cbv iota.
    match goal with
    | |- context [while_hasMore w fuel true ?acc ?s ?st1] =>
        destruct (IH fuel acc s st1 e) as (st' & E & G)
    end.
    + intros j Hj. simpl n_get. rewrite <- request_at_S. apply Hc. lia.
    + simpl n_get. rewrite <- request_at_S. exact He.
    + lia.
    + exists st'. simpl n_get in *. simpl trace in *.
      split; [exact E |].
      rewrite G. rewrite get_requests_app. simpl get_requests.
      rewrite <- app_assoc.
      change (seq 0 (S (S n))) with (0%nat :: seq 1 (S n)).
      rewrite <- seq_shift. cbn [map app]. rewrite map_map.
      rewrite (map_ext
                 (fun j => (start + limit * Z.of_nat (S j), limit))
                 (fun j => (start + limit + limit * Z.of_nat j, limit)))
        by (intros j; f_equal; lia).
      replace (start + limit * Z.of_nat 0) with start by lia.
      reflexivity.
Qed.

(** As long as every page continues, the loop goes on: no amount of fuel
    lets it return. *)
Lemma while_hasMore_goes_on (w : World) (fuel : nat) :
  forall (allThreads : list Thread) (start : Z) (st : State),
    (forall j, (j < fuel)%nat ->
               continues (request_at w (n_get st) start j) = true) ->
    fst (while_hasMore w fuel true allThreads start st) = OutOfFuel.
Proof.
  induction fuel as [| fuel IH]; intros allThreads start st Hc;
    [reflexivity |].
  assert (Hc0 := Hc 0%nat ltac:(lia)).
  rewrite request_at_0 in Hc0.
  destruct (continues_inv _ Hc0) as (body & t & ts & Eb & Ed & Hm).
  simpl while_hasMore.
  rewrite (bind_Ret _ _ _ _ _ (fetchMailThreads_ok w start limit st body Eb)).
  rewrite Ed, Hm. change (negb true) with false. cbv iota.
  apply IH. intros j Hj. simpl n_get. rewrite <- request_at_S. apply Hc. lia.
Qed.

Lemma continues_items (r : GetResult) :
  continues r = true -> page_items r <> [] /\ page_more r = true.
Proof.
  intros H. destruct (continues_inv _ H) as (body & t & ts & -> & Ed & Hm).
  rewrite page_more_body. simpl. rewrite Ed.
  split; [discriminate | exact Hm].
Qed.

Lemma stops_items (r : GetResult) :
  stops r = true -> page_items r = [] \/ page_more r = false.
Proof.
  intros H. destruct (stops_inv _ H) as (body & -> & Hs).
  rewrite page_more_body. exact Hs.
Qed.

(** C1.  [getAllThreads] asks for the pages at the offsets 0, 100, 200,
    ..., one request after the other, each page holding at most the 100
    threads asked for.  If the first [n] pages have threads and a truthy
    pagination indicator and the next page has no thread or a falsy
    indicator (the field [more_items_in_collection] of the response, absent
    or not), it sends exactly these [n + 1] requests and returns the threads
    of the [n + 1] pages, in order. *)
Theorem getAllThreads_concatenates_pages (w : World) (n fuel : nat)
    (st : State) :
  (forall j, (j <= n)%nat -> within_limit (page_at w (n_get st) j) = true) ->
  (forall j, (j < n)%nat -> continues (page_at w (n_get st) j) = true) ->
  stops (page_at w (n_get st) n) = true ->
  (n < fuel)%nat ->
  (exists st',
     getAllThreads w fuel st = (Ret (pages_items w (n_get st) (S n)), st') /\
     get_requests (trace st') = get_requests (trace st) ++ offsets (S n) /\
     n_get st' = (n_get st + S n)%nat) /\
  (forall j, (j < n)%nat ->
             page_items (page_at w (n_get st) j) <> [] /\
             page_more (page_at w (n_get st) j) = true) /\
  (page_items (page_at w (n_get st) n) = [] \/
   page_more (page_at w (n_get st) n) = false).
Proof.
  intros _ Hc Hs Hf.
  split; [| split].
  - unfold getAllThreads. rewrite bind_out.
    destruct (while_hasMore_returns w n fuel [] 0
                (log [EvOut LogFetchingAll] st) Hc Hs Hf)
      as (st' & E & G & N).
    exists st'. simpl in *.
    rewrite get_requests_app in G. simpl in G. rewrite app_nil_r in G.
    repeat split; assumption.
  - intros j Hj. apply continues_items. now apply Hc.
  - now apply stops_items.
Qed.

(** Three runs: one ending on an empty page, one on a page that has
    threads and the indicator [false], one on a page that has threads and
    no indicator at all. *)
Lemma getAllThreads_concatenates_pages_witness :
  ((exists st',
       getAllThreads (sample_world [] true) 3 start_state
       = (Ret sample_inbox, st') /\
       get_requests (trace st') = [(0, 100); (100, 100); (200, 100)] /\
       n_get st' = 3%nat) /\
   (forall j, (j < 2)%nat ->
              page_items (page_at (sample_world [] true) 0 j) <> [] /\
              page_more (page_at (sample_world [] true) 0 j) = true) /\
   (page_items (page_at (sample_world [] true) 0 2) = [] \/
    page_more (page_at (sample_world [] true) 0 2) = false)) /\
  (let w := world_of [] (Some "token") two_pages (Answered true) in
   (exists st',
       getAllThreads w 5 start_state = (Ret sample_inbox, st') /\
       get_requests (trace st') = [(0, 100); (100, 100)] /\
       n_get st' = 2%nat) /\
   (forall j, (j < 1)%nat ->
              page_items (page_at w 0 j) <> [] /\
              page_more (page_at w 0 j) = true) /\
   (page_items (page_at w 0 1) = [] \/ page_more (page_at w 0 1) = false)) /\
  (let w := world_of [] (Some "token") two_pages_bare (Answered true) in
   (exists st',
       getAllThreads w 5 start_state = (Ret sample_inbox, st') /\
       get_requests (trace st') = [(0, 100); (100, 100)] /\
       n_get st' = 2%nat) /\
   (forall j, (j < 1)%nat ->
              page_items (page_at w 0 j) <> [] /\
              page_more (page_at w 0 j) = true) /\
   (page_items (page_at w 0 1) = [] \/ page_more (page_at w 0 1) = false)).
Proof.
  split; [| split].
  - apply (getAllThreads_concatenates_pages (sample_world [] true) 2 3
             start_state).
    + intros [| [| [| j]]] Hj; [reflexivity | reflexivity | reflexivity | lia].
    + intros [| [| j]] Hj; [reflexivity | reflexivity | lia].
    + reflexivity.
    + lia.
  - intros w.
    apply (getAllThreads_concatenates_pages w 1 5 start_state).
    + intros [| [| j]] Hj; [reflexivity | reflexivity | lia].
    + intros [| j] Hj; [reflexivity | lia].
    + reflexivity.
    + lia.
  - intros w.
    apply (getAllThreads_concatenates_pages w 1 5 start_state).
    + intros [| [| j]] Hj; [reflexivity | reflexivity | lia].
    + intros [| j] Hj; [reflexivity | lia].
    + reflexivity.
    + lia.
Defined.

(** The last page of [two_pages] has threads, and the loop ends on it
    because of its indicator alone. *)
Example two_pages_last :
  let r := page_at (world_of [] (Some "token") two_pages (Answered true)) 0 1 in
  page_items r = skipn 3 sample_inbox /\ page_more r = false /\
  stops r = true /\ continues r = false.
Proof. repeat split. Qed.

(** X20.  If every page has threads and announces more,
    [getAllThreads] never returns: whatever the fuel, the loop is still
    asking for pages when it runs out. *)
Lemma getAllThreads_goes_on (w : World) (st : State) :
  (forall j, continues (page_at w (n_get st) j) = true) ->
  forall fuel, fst (getAllThreads w fuel st) = OutOfFuel.
Proof.
  intros Hc fuel. unfold getAllThreads. rewrite bind_out.
  apply while_hasMore_goes_on. intros j _. apply Hc.
Qed.

Lemma getAllThreads_throws (w : World) (n fuel : nat) (st : State) e :
  (forall j, (j < n)%nat -> continues (page_at w (n_get st) j) = true) ->
  page_error (page_at w (n_get st) n) = Some e ->
  (n < fuel)%nat ->
  exists st',
    getAllThreads w fuel st = (Throw e, st') /\
    get_requests (trace st') = get_requests (trace st) ++ offsets (S n) /\
    quiet st st'.
Proof.
  intros Hc He Hf.
  unfold getAllThreads. rewrite bind_out.
  destruct (while_hasMore_throws w n fuel [] 0
              (log [EvOut LogFetchingAll] st) e Hc He Hf) as (st' & E & G).
  exists st'. simpl in G.
  rewrite get_requests_app in G. simpl in G. rewrite app_nil_r in G.
  repeat split; try assumption;
    pose proof (quiet_while_hasMore w fuel true [] 0
                  (log [EvOut LogFetchingAll] st)) as Q;
    rewrite E in Q; destruct Q as (Q1 & Q2 & Q3); simpl in *;
    rewrite ?put_requests_app in *; simpl in *; rewrite ?app_nil_r in *;
    assumption.
Qed.

(** ** The constructor and [run] *)

Lemma constructor_spec (w : World) (st st' : State) :
  constructor w st = (Ret tt, st') ->
  stats st' = zero_stats /\ trace st' = trace st /\
  n_get st' = n_get st /\ n_put st' = n_put st.
Proof.
  unfold constructor, bind.
  destruct (negb _); simpl; [discriminate |].
  intros H. inversion H; subst; simpl. repeat split.
Qed.

Lemma main_run (w : World) (fuel : nat) (st st0 : State) :
  (parseArgs w ;; constructor w) st = (Ret tt, st0) ->
  main w fuel st = run w fuel st0.
Proof.
  unfold main, bind.
  destruct (parseArgs w st) as [[o | e | c |] s1]; try discriminate.
  destruct (constructor w s1) as [[[] | e | c |] s2]; try discriminate.
  now intros [= ->].
Qed.

Lemma quiet_log_out (m : Msg) (st : State) : quiet st (log [EvOut m] st).
Proof. exact (quiet_out m st). Qed.

Lemma run_after_fetch (w : World) (fuel : nat) (st st1 : State)
    (o : Outcome (list Thread)) :
  getAllThreads w fuel (log [EvOut LogTitle] st) = (o, st1) ->
  run w fuel st
  = match o with
    | Ret allThreads =>
        try_catch
          (if len allThreads =? 0 then out LogNoThreads
           else
             unarchivedThreads <- displayThreadInfo allThreads ;;
             if len unarchivedThreads =? 0 then out LogAllArchived
             else
               shouldArchive <- confirmArchive w (len unarchivedThreads) ;;
               if negb shouldArchive then out LogCancelled
               else archiveAll w unarchivedThreads ;; displayStats)
          (fun error => out (ErrFatal (message error)) ;; process_exit 1)
          st1
    | Throw e => (Exit 1, log [EvOut (ErrFatal (message e))] st1)
    | Exit c => (Exit c, st1)
    | OutOfFuel => (OutOfFuel, st1)
    end.
Proof.
  intros H. unfold run, try_catch. rewrite bind_out.
  unfold bind at 1. rewrite H.
  destruct o; reflexivity.
Qed.

(** C5.  If a page cannot be fetched, after any number of pages that
    could, [run] reports the error as fatal and leaves with
    [process.exit(1)]; no PUT was sent and the statistics are untouched.
    The whole script then exits with code 1 as well. *)
Theorem fetch_failure_is_fatal (w : World) (n fuel : nat) (st : State) e :
  (forall j, (j < n)%nat -> continues (page_at w (n_get st) j) = true) ->
  page_error (page_at w (n_get st) n) = Some e ->
  (n < fuel)%nat ->
  (exists st',
     run w fuel st = (Exit 1, st') /\
     put_requests (trace st') = put_requests (trace st) /\
     n_put st' = n_put st /\
     stats st' = stats st /\
     get_requests (trace st') = get_requests (trace st) ++ offsets (S n) /\
     exists tr, trace st' = tr ++ [EvOut (ErrFatal (message e))]) /\
  (forall st0, (parseArgs w ;; constructor w) st0 = (Ret tt, st) ->
               fst (main w fuel st0) = Exit 1).
Proof.
  intros Hc He Hf.
  destruct (getAllThreads_throws w n fuel (log [EvOut LogTitle] st) e Hc He Hf)
    as (st1 & E & G & Q).
  pose proof (quiet_trans _ _ _ (quiet_log_out LogTitle st) Q)
    as (Q1 & Q2 & Q3).
  assert (R : run w fuel st
              = (Exit 1, log [EvOut (ErrFatal (message e))] st1))
    by (rewrite (run_after_fetch w fuel st st1 _ E); reflexivity).
  split.
  - eexists. split; [exact R |]. simpl.
    rewrite put_requests_app, get_requests_app. simpl.
    rewrite !app_nil_r.
    simpl in G. rewrite get_requests_app in G. simpl in G.
    rewrite app_nil_r in G.
    repeat split; try assumption.
    now exists (trace st1).
  - intros st0 H0. rewrite (main_run w fuel st0 st H0), R. reflexivity.
Qed.

Lemma fetch_failure_is_fatal_witness :
  (exists st',
     run broken_world 5 start_state = (Exit 1, st') /\
     put_requests (trace st') = [] /\
     n_put st' = 0%nat /\
     stats st' = zero_stats /\
     get_requests (trace st') = [(0, 100); (100, 100)] /\
     exists tr,
       trace st'
       = tr ++ [EvOut (ErrFatal "Request failed with status code 500")]) /\
  (forall st0,
      (parseArgs broken_world ;; constructor broken_world) st0
      = (Ret tt, start_state) ->
      fst (main broken_world 5 st0) = Exit 1).
Proof.
  apply (fetch_failure_is_fatal broken_world 1 5 start_state sample_error).
  - intros [| j] Hj; [reflexivity | lia].
  - reflexivity.
  - lia.
Defined.

Lemma len_eqb_0 {A} (xs : list A) : xs <> [] -> (len xs =? 0) = false.
Proof.
  intros H. destruct xs as [| x xs]; [contradiction |].
  apply Z.eqb_neq. unfold len. simpl List.length. lia.
Qed.

Lemma unarchived_nonempty (threads : list Thread) :
  unarchived_threads threads <> [] -> threads <> [].
Proof. intros H ->. now apply H. Qed.

(** [run], once the threads are fetched and some of them are unarchived:
    what remains is the confirmation and, if it is given, the archiving. *)
Lemma run_after_summary (w : World) (fuel : nat) (st st1 : State)
    (allThreads : list Thread) :
  getAllThreads w fuel (log [EvOut LogTitle] st) = (Ret allThreads, st1) ->
  unarchived_threads allThreads <> [] ->
  let unarchivedThreads := unarchived_threads allThreads in
  run w fuel st
  = try_catch
      (shouldArchive <- confirmArchive w (len unarchivedThreads) ;;
       if negb shouldArchive then out LogCancelled
       else archiveAll w unarchivedThreads ;; displayStats)
      (fun error => out (ErrFatal (message error)) ;; process_exit 1)
      (snd (displayThreadInfo allThreads st1)).
Proof.
  intros E Hne u. subst u.
  rewrite (run_after_fetch w fuel st st1 _ E).
  rewrite (len_eqb_0 _ (unarchived_nonempty _ Hne)).
  unfold try_catch. unfold bind at 1.
  pose proof (displayThreadInfo_returns allThreads st1) as Hd.
  destruct (displayThreadInfo allThreads st1) as [o st2]. simpl in Hd.
  subst o. simpl snd.
  now rewrite (len_eqb_0 _ Hne).
Qed.

(** C6.  On a new archiver, if the threads were fetched and the
    confirmation asked for the unarchived ones is refused, [run] ends with
    the cancellation notice: no PUT was sent and the statistics are still
    all zero. *)
Theorem declined_confirmation (w : World) (fuel : nat)
    (st_new st st1 st3 : State) (allThreads : list Thread) :
  constructor w st_new = (Ret tt, st) ->
  getAllThreads w fuel (log [EvOut LogTitle] st) = (Ret allThreads, st1) ->
  unarchived_threads allThreads <> [] ->
  confirmArchive w (len (unarchived_threads allThreads))
    (snd (displayThreadInfo allThreads st1)) = (Ret false, st3) ->
  exists final,
    run w fuel st = (Ret tt, final) /\
    trace final = trace st3 ++ [EvOut LogCancelled] /\
    put_requests (trace final) = put_requests (trace st) /\
    n_put final = n_put st /\
    stats final
    = {| total := 0; archived := 0; alreadyArchived := 0; failed := 0 |}.
Proof.
  intros Hnew E Hne Hconfirm.
  destruct (constructor_spec w st_new st Hnew) as (Hzero & _).
  exists (log [EvOut LogCancelled] st3).
  split.
  { rewrite (run_after_summary w fuel st st1 allThreads E Hne).
    unfold try_catch, bind. rewrite Hconfirm. reflexivity. }
  split; [reflexivity |].
  assert (Q : quiet st st3).
  { eapply quiet_trans; [apply (quiet_log_out LogTitle) |].
    eapply quiet_trans.
    { pose proof (quiet_getAllThreads w fuel (log [EvOut LogTitle] st)) as Q.
      rewrite E in Q. exact Q. }
    eapply quiet_trans; [apply (quiet_displayThreadInfo allThreads st1) |].
    pose proof (quiet_confirmArchive w (len (unarchived_threads allThreads))
                  (snd (displayThreadInfo allThreads st1))) as Q.
    rewrite Hconfirm in Q. exact Q. }
  destruct (quiet_trans _ _ _ Q (quiet_log_out LogCancelled st3))
    as (Q1 & Q2 & Q3).
  repeat split; try assumption.
  rewrite Q3. exact Hzero.
Qed.

Lemma declined_confirmation_witness :
  exists final,
    run (sample_world [] false) 5 start_state = (Ret tt, final) /\
    trace final
    = trace (snd (confirmArchive (sample_world [] false) 3
                    (snd (displayThreadInfo sample_inbox
                            (snd (getAllThreads (sample_world [] false) 5
                                    (log [EvOut LogTitle] start_state)))))))
      ++ [EvOut LogCancelled] /\
    put_requests (trace final) = [] /\
    n_put final = 0%nat /\
    stats final
    = {| total := 0; archived := 0; alreadyArchived := 0; failed := 0 |}.
Proof.
  apply (declined_confirmation (sample_world [] false) 5
           start_state start_state
           (snd (getAllThreads (sample_world [] false) 5
                   (log [EvOut LogTitle] start_state)))
           _ sample_inbox).
  - reflexivity.
  - reflexivity.
  - discriminate.
  - reflexivity.
Defined.

(** What is left to show of the invariant of [run] when nothing was
    mutated. *)
Lemma quiet_invariant (st final : State) :
  stats st = zero_stats -> quiet st final ->
  archived (stats final) + failed (stats final) <= total (stats final) /\
  put_requests (trace final) = put_requests (trace st) ++ map id [].
Proof.
  intros Hzero (Q1 & _ & Q3). rewrite Q1, Q3, Hzero. simpl.
  rewrite app_nil_r. split; [lia | reflexivity].
Qed.

Lemma quiet_step {A} (m : M A) (st : State) o st' :
  keeps quiet m -> m st = (o, st') -> quiet st st'.
Proof. intros K E. specialize (K st). now rewrite E in K. Qed.

Lemma displayStats_returns (st : State) :
  fst (displayStats st) = Ret tt.
Proof.
  unfold displayStats. rewrite bind_out.
  unfold bind at 1. unfold get_stats. rewrite !bind_out.
  destruct (failed _ >? 0); reflexivity.
Qed.

Lemma displayStats_eq (st : State) :
  displayStats st = (Ret tt, snd (displayStats st)).
Proof.
  rewrite <- (displayStats_returns st). now destruct (displayStats st).
Qed.

(** C8.  On a new archiver, whatever the service answers and however
    [run] ends, the statistics satisfy [archived + failed <= total], and the
    PUTs sent are those of a list [submitted] of threads that is either
    empty or the unarchived part of the threads that were fetched: a thread
    with a truthy [archived_flag] is never submitted. *)
Theorem run_submits_unarchived_only (w : World) (fuel : nat)
    (st_new st : State) :
  constructor w st_new = (Ret tt, st) ->
  let final := snd (run w fuel st) in
  archived (stats final) + failed (stats final) <= total (stats final) /\
  exists submitted : list Thread,
    put_requests (trace final) = put_requests (trace st) ++ map id submitted /\
    (forall t, In t submitted -> Js.truthy (archived_flag t) = false) /\
    (submitted = [] \/
     exists allThreads st1,
       getAllThreads w fuel (log [EvOut LogTitle] st) = (Ret allThreads, st1) /\
       submitted = unarchived_threads allThreads).
Proof.
  intros Hnew final. subst final.
  destruct (constructor_spec w st_new st Hnew) as (Hzero & _).
  assert (Hquiet : forall final, quiet st final ->
            archived (stats final) + failed (stats final)
            <= total (stats final) /\
            exists submitted : list Thread,
              put_requests (trace final)
              = put_requests (trace st) ++ map id submitted /\
              (forall t, In t submitted ->
                         Js.truthy (archived_flag t) = false) /\
              (submitted = [] \/
               exists allThreads st1,
                 getAllThreads w fuel (log [EvOut LogTitle] st)
                 = (Ret allThreads, st1) /\
                 submitted = unarchived_threads allThreads)).
  { intros final Q.
    destruct (quiet_invariant st final Hzero Q) as (I & P).
    split; [exact I |]. exists []. split; [exact P |].
    split; [intros t [] | now left]. }
  destruct (getAllThreads w fuel (log [EvOut LogTitle] st))
    as [o st1] eqn:E.
  assert (Q1 : quiet st st1).
  { eapply quiet_trans; [apply (quiet_log_out LogTitle) |].
    exact (quiet_step _ _ _ _ (quiet_getAllThreads w fuel) E). }
  destruct o as [allThreads | e | c |].
  2: { rewrite (run_after_fetch w fuel st st1 _ E). apply Hquiet.
       eapply quiet_trans; [exact Q1 | apply quiet_log_out]. }
  2, 3: rewrite (run_after_fetch w fuel st st1 _ E); now apply Hquiet.
  destruct allThreads as [| t0 ts0] eqn:Eall.
  { rewrite (run_after_fetch w fuel st st1 _ E). apply Hquiet.
    eapply quiet_trans; [exact Q1 | apply (quiet_log_out LogNoThreads)]. }
  rewrite <- Eall in *. clear Eall t0 ts0.
  assert (Q2 : quiet st (snd (displayThreadInfo allThreads st1))).
  { eapply quiet_trans; [exact Q1 | apply quiet_displayThreadInfo]. }
  destruct (unarchived_threads allThreads) as [| u0 us0] eqn:Eun.
  { rewrite (run_after_fetch w fuel st st1 _ E).
    destruct (len allThreads =? 0).
    - apply Hquiet.
      eapply quiet_trans; [exact Q1 | apply (quiet_log_out LogNoThreads)].
    - unfold try_catch.
      rewrite (bind_Ret _ _ _ _ _ (displayThreadInfo_eq allThreads st1)).
      rewrite Eun. apply Hquiet.
      eapply quiet_trans; [exact Q2 | apply (quiet_log_out LogAllArchived)]. }
  assert (Hne : unarchived_threads allThreads <> [])
    by (rewrite Eun; discriminate).
  clear Eun u0 us0.
  rewrite (run_after_summary w fuel st st1 allThreads E Hne).
  set (st2 := snd (displayThreadInfo allThreads st1)) in *.
  destruct (confirmArchive w (len (unarchived_threads allThreads)) st2)
    as [o st3] eqn:Ec.
  assert (Q3 : quiet st st3).
  { eapply quiet_trans; [exact Q2 |].
    exact (quiet_step _ _ _ _ (quiet_confirmArchive w _) Ec). }
  destruct o as [[|] | e | c |].
  - (* confirmed *)
    rewrite (try_catch_bind_Ret _ _ _ _ _ _ Ec). simpl negb. cbv iota.
    destruct (includes (argv w) "--dry-run") eqn:Edry.
    + pose proof (quiet_archiveAll_dry w (unarchived_threads allThreads)
                    st3 Edry) as Qa.
      pose proof (archiveAll_dry w (unarchived_threads allThreads) st3 Edry)
        as Ea.
      rewrite (try_catch_bind_Ret _ _ _ _ _ _ Ea).
      rewrite Ea in Qa. simpl snd in Qa.
      rewrite (try_catch_Ret _ _ _ _ _ (displayStats_eq _)).
      apply Hquiet.
      eapply quiet_trans; [exact Q3 |].
      eapply quiet_trans; [exact Qa | apply quiet_displayStats].
    + destruct (archiveAll_spec w (unarchived_threads allThreads) st3 Edry)
        as (st4 & Ea & T & _ & Ar & F & P & _).
      rewrite (try_catch_bind_Ret _ _ _ _ _ _ Ea).
      rewrite (try_catch_Ret _ _ _ _ _ (displayStats_eq _)).
      destruct (quiet_displayStats st4) as (D1 & _ & D3).
      simpl snd.
      destruct Q3 as (Q31 & _ & Q33).
      pose proof (filter_negb_length acknowledged
                    (put_responses w (n_put st3)
                       (unarchived_threads allThreads))) as HL.
      unfold len in HL. rewrite put_responses_length in HL.
      rewrite Q33, Hzero in Ar, F. simpl in Ar, F.
      split.
      * rewrite D3. unfold len in *. lia.
      * exists (unarchived_threads allThreads).
        split; [rewrite D1, P, Q31; reflexivity |].
        split.
        -- intros t Ht. apply filter_In in Ht.
           now apply negb_true_iff.
        -- right. now exists allThreads, st1.
  - (* refused *)
    rewrite (try_catch_bind_Ret _ _ _ _ _ _ Ec). simpl negb. cbv iota.
    apply Hquiet.
    eapply quiet_trans; [exact Q3 | apply (quiet_log_out LogCancelled)].
  - rewrite (try_catch_bind_Throw _ _ _ _ _ _ Ec).
    apply Hquiet.
    eapply quiet_trans; [exact Q3 | apply quiet_log_out].
  - rewrite (try_catch_bind_Exit _ _ _ _ _ _ Ec). now apply Hquiet.
  - rewrite (try_catch_bind_OutOfFuel _ _ _ _ _ Ec). now apply Hquiet.
Qed.

Lemma run_submits_unarchived_only_witness :
  let w := sample_world [] true in
  let final := snd (run w 5 start_state) in
  archived (stats final) + failed (stats final) <= total (stats final) /\
  exists submitted : list Thread,
    put_requests (trace final)
    = put_requests (trace start_state) ++ map id submitted /\
    (forall t, In t submitted -> Js.truthy (archived_flag t) = false) /\
    (submitted = [] \/
     exists allThreads st1,
       getAllThreads w 5 (log [EvOut LogTitle] start_state)
       = (Ret allThreads, st1) /\
       submitted = unarchived_threads allThreads).
Proof.
  intros w.
  apply (run_submits_unarchived_only w 5 start_state start_state).
  reflexivity.
Defined.

(** ** The field [alreadyArchived] *)

Lemma keeps_weaken (R R' : State -> State -> Prop) {A} (m : M A) :
  (forall a b, R a b -> R' a b) -> keeps R m -> keeps R' m.
Proof. intros HR Hm st. apply HR, Hm. Qed.

Lemma same_alreadyArchived_emit (ev : Event) :
  keeps same_alreadyArchived (emit ev).
Proof. intros st. reflexivity. Qed.

Lemma same_alreadyArchived_out (m : Msg) : keeps same_alreadyArchived (out m).
Proof. intros st. reflexivity. Qed.

Lemma same_alreadyArchived_axios_put (w : World) (threadId : Z) :
  keeps same_alreadyArchived (axios_put w threadId).
Proof.
  intros st. unfold axios_put.
  destruct (on_put w (n_put st) threadId); reflexivity.
Qed.

Lemma same_alreadyArchived_incr_archived :
  keeps same_alreadyArchived incr_archived.
Proof. intros st. reflexivity. Qed.

Lemma same_alreadyArchived_incr_failed :
  keeps same_alreadyArchived incr_failed.
Proof. intros st. reflexivity. Qed.

#[local] Hint Resolve same_alreadyArchived_emit same_alreadyArchived_out
  same_alreadyArchived_axios_put same_alreadyArchived_incr_archived
  same_alreadyArchived_incr_failed : keeps.

Lemma same_alreadyArchived_fetchMailThreads (w : World) (start lim : Z) :
  keeps same_alreadyArchived (fetchMailThreads w start lim).
Proof.
  apply (keeps_weaken quiet); [apply quiet_same_alreadyArchived |].
  apply quiet_fetchMailThreads.
Qed.

Lemma same_alreadyArchived_getAllThreads (w : World) (fuel : nat) :
  keeps same_alreadyArchived (getAllThreads w fuel).
Proof.
  apply (keeps_weaken quiet); [apply quiet_same_alreadyArchived |].
  apply quiet_getAllThreads.
Qed.

Lemma same_alreadyArchived_displayThreadInfo (threads : list Thread) :
  keeps same_alreadyArchived (displayThreadInfo threads).
Proof.
  apply (keeps_weaken quiet); [apply quiet_same_alreadyArchived |].
  apply quiet_displayThreadInfo.
Qed.

Lemma same_alreadyArchived_confirmArchive (w : World) (threadCount : Z) :
  keeps same_alreadyArchived (confirmArchive w threadCount).
Proof.
  apply (keeps_weaken quiet); [apply quiet_same_alreadyArchived |].
  apply quiet_confirmArchive.
Qed.

Lemma same_alreadyArchived_displayStats :
  keeps same_alreadyArchived displayStats.
Proof.
  apply (keeps_weaken quiet); [apply quiet_same_alreadyArchived |].
  apply quiet_displayStats.
Qed.

Lemma same_alreadyArchived_archiveThread (w : World) (threadId : Z) :
  keeps same_alreadyArchived (archiveThread w threadId).
Proof. unfold archiveThread. keeps_auto. Qed.

#[local] Hint Resolve same_alreadyArchived_fetchMailThreads
  same_alreadyArchived_getAllThreads same_alreadyArchived_displayThreadInfo
  same_alreadyArchived_confirmArchive same_alreadyArchived_displayStats
  same_alreadyArchived_archiveThread : keeps.

Lemma same_alreadyArchived_archive_loop (w : World) (n : Z)
    (rest : list Thread) :
  forall j, keeps same_alreadyArchived (archive_loop w n j rest).
Proof.
  induction rest as [| thread rest IH]; intros j; simpl.
  - auto with keeps.
  - keeps_auto.
Qed.

#[local] Hint Resolve same_alreadyArchived_archive_loop : keeps.

Lemma same_alreadyArchived_archiveAll (w : World) (threads : list Thread) :
  keeps same_alreadyArchived (archiveAll w threads).
Proof.
  unfold archiveAll.
  destruct (includes (argv w) "--dry-run").
  - keeps_auto.
  - keeps_step.
    intros st. unfold bind at 1. unfold get_stats.
    unfold bind at 1. unfold set_stats.
    match goal with
    | |- same_alreadyArchived st (snd (?m ?s)) =>
        apply (same_alreadyArchived_trans st s); [reflexivity |];
        assert (K : keeps same_alreadyArchived m) by keeps_auto;
        apply K
    end.
Qed.

#[local] Hint Resolve same_alreadyArchived_archiveAll : keeps.

Lemma same_alreadyArchived_run (w : World) (fuel : nat) :
  keeps same_alreadyArchived (run w fuel).
Proof. unfold run. keeps_auto. Qed.

Lemma displayThreadInfo_trace (threads : list Thread) (st : State) :
  exists rest,
    trace (snd (displayThreadInfo threads st))
    = trace st
      ++ [EvOut LogSummary; EvOut (LogTotal (len threads));
          EvOut (LogUnarchived (len (unarchived_threads threads)));
          EvOut (LogAlreadyArchived (len (archived_threads threads)))]
      ++ rest.
Proof.
  unfold displayThreadInfo.
  rewrite !bind_out, !log_log. simpl app.
  destruct (len (unarchived_threads threads) >? 0).
  - rewrite bind_assoc, bind_out, bind_assoc.
    rewrite (bind_Ret _ _ _ _ _
               (forEach_out (fun t => LogSample (subject_text t)
                                        (parties_text t)) _ _)).
    rewrite !log_log.
    destruct (len (unarchived_threads threads) >? 5); simpl;
      rewrite <- ?app_assoc; simpl; eexists; reflexivity.
  - simpl. exists []. reflexivity.
Qed.

(** C10.  The constructor sets [alreadyArchived] to 0 and no method
    changes it afterwards, however the method ends; so it is 0 when [run]
    ends.  [displayThreadInfo] writes the number of archived threads to the
    console and leaves the statistics as they are. *)
Theorem alreadyArchived_never_counted (w : World) (fuel : nat)
    (st_new st : State) :
  constructor w st_new = (Ret tt, st) ->
  alreadyArchived (stats st) = 0 /\
  (forall start lim,
      keeps same_alreadyArchived (fetchMailThreads w start lim)) /\
  (forall threadId, keeps same_alreadyArchived (archiveThread w threadId)) /\
  (forall f, keeps same_alreadyArchived (getAllThreads w f)) /\
  (forall threads, keeps same_alreadyArchived (displayThreadInfo threads)) /\
  (forall n, keeps same_alreadyArchived (confirmArchive w n)) /\
  (forall threads, keeps same_alreadyArchived (archiveAll w threads)) /\
  keeps same_alreadyArchived displayStats /\
  (forall f, keeps same_alreadyArchived (run w f)) /\
  alreadyArchived (stats (snd (run w fuel st))) = 0 /\
  (forall threads s,
      stats (snd (displayThreadInfo threads s)) = stats s /\
      exists rest,
        trace (snd (displayThreadInfo threads s))
        = trace s
          ++ [EvOut LogSummary; EvOut (LogTotal (len threads));
              EvOut (LogUnarchived (len (unarchived_threads threads)));
              EvOut (LogAlreadyArchived (len (archived_threads threads)))]
          ++ rest).
Proof.
  intros Hnew.
  destruct (constructor_spec w st_new st Hnew) as (Hzero & _).
  assert (H0 : alreadyArchived (stats st) = 0) by now rewrite Hzero.
  split; [exact H0 |].
  split; [intros; apply same_alreadyArchived_fetchMailThreads |].
  split; [intros; apply same_alreadyArchived_archiveThread |].
  split; [intros; apply same_alreadyArchived_getAllThreads |].
  split; [intros; apply same_alreadyArchived_displayThreadInfo |].
  split; [intros; apply same_alreadyArchived_confirmArchive |].
  split; [intros; apply same_alreadyArchived_archiveAll |].
  split; [apply same_alreadyArchived_displayStats |].
  split; [intros; apply same_alreadyArchived_run |].
  split.
  - pose proof (same_alreadyArchived_run w fuel st) as K.
    unfold same_alreadyArchived in K. now rewrite K.
  - intros threads s. split.
    + apply quiet_displayThreadInfo.
    + apply displayThreadInfo_trace.
Qed.

Lemma alreadyArchived_never_counted_witness :
  let w := sample_world ["--yes"] true in
  alreadyArchived (stats start_state) = 0 /\
  (forall start lim,
      keeps same_alreadyArchived (fetchMailThreads w start lim)) /\
  (forall threadId, keeps same_alreadyArchived (archiveThread w threadId)) /\
  (forall f, keeps same_alreadyArchived (getAllThreads w f)) /\
  (forall threads, keeps same_alreadyArchived (displayThreadInfo threads)) /\
  (forall n, keeps same_alreadyArchived (confirmArchive w n)) /\
  (forall threads, keeps same_alreadyArchived (archiveAll w threads)) /\
  keeps same_alreadyArchived displayStats /\
  (forall f, keeps same_alreadyArchived (run w f)) /\
  alreadyArchived (stats (snd (run w 5 start_state))) = 0 /\
  (forall threads s,
      stats (snd (displayThreadInfo threads s)) = stats s /\
      exists rest,
        trace (snd (displayThreadInfo threads s))
        = trace s
          ++ [EvOut LogSummary; EvOut (LogTotal (len threads));
              EvOut (LogUnarchived (len (unarchived_threads threads)));
              EvOut (LogAlreadyArchived (len (archived_threads threads)))]
          ++ rest).
Proof.
  intros w.
  apply (alreadyArchived_never_counted w 5 start_state start_state).
  reflexivity.
Defined.

(** ** The sample inbox, run *)

(** Two of the five threads are archived already: the summary says so,
    the three others are submitted, and [alreadyArchived] stays 0. *)
Example sample_run :
  let final := snd (main (sample_world ["--yes"] true) 5 start_state) in
  fst (main (sample_world ["--yes"] true) 5 start_state) = Ret tt /\
  In (EvOut (LogAlreadyArchived 2)) (trace final) /\
  put_requests (trace final) = [1; 3; 4] /\
  get_requests (trace final) = [(0, 100); (100, 100); (200, 100)] /\
  prompts (trace final) = [] /\
  stats final
  = {| total := 3; archived := 2; alreadyArchived := 0; failed := 1 |}.
Proof.
  vm_compute. repeat split. do 14 right. now left.
Qed.

(** The same without [--yes], the user refusing. *)
Example sample_run_refused :
  let final := snd (main (sample_world [] false) 5 start_state) in
  fst (main (sample_world [] false) 5 start_state) = Ret tt /\
  put_requests (trace final) = [] /\
  prompts (trace final) = [3] /\
  stats final = zero_stats.
Proof. vm_compute. repeat split. Qed.

(** A dry run ends with the results of an archiving that did not happen. *)
Example sample_dry_run :
  let final := snd (main (sample_world ["--dry-run"; "-y"] true) 5
                      start_state) in
  put_requests (trace final) = [] /\
  stats final = zero_stats /\
  exists tr,
    trace final
    = tr ++ [EvOut LogResults; EvOut (LogProcessed 0); EvOut (LogArchived 0)].
Proof.
  vm_compute. repeat split.
  eexists (_ :: _ :: _ :: _ :: _ :: _ :: _ :: _ :: _ :: _ :: _ :: _ :: _ ::
           _ :: _ :: _ :: _ :: _ :: _ :: _ :: _ :: _ :: _ :: []).
  reflexivity.
Qed.

(** Without a token the constructor leaves with code 1 before any
    request. *)
Example no_token_exits :
  main {| argv := ["node"; "archiver.js"];
          PIPEDRIVE_API_TOKEN := None; PIPEDRIVE_DOMAIN := None;
          on_get := fun _ _ _ => sample_page [] false;
          on_put := fun _ _ => PutFail sample_error;
          on_prompt := fun _ => Answered true |} 5 start_state
  = (Exit 1, log [EvOut ErrNoToken] start_state).
Proof. reflexivity. Qed.

(** * Further properties *)

(** ** Traces that grow by one class of events *)

Lemma only_refl (p : Event -> bool) (st : State) : only p st st.
Proof. exists []. now rewrite app_nil_r. Qed.

Lemma only_trans (p : Event -> bool) (a b c : State) :
  only p a b -> only p b c -> only p a c.
Proof.
  intros (d1 & E1 & F1) (d2 & E2 & F2).
  exists (d1 ++ d2). rewrite E2, E1, app_assoc, forallb_app, F1, F2.
  now split.
Qed.

Lemma only_weaken (p q : Event -> bool) (st st' : State) :
  (forall ev, p ev = true -> q ev = true) -> only p st st' -> only q st st'.
Proof.
  intros Hpq (d & E & F). exists d. split; [exact E |].
  rewrite forallb_forall in *. auto.
Qed.

Lemma only_emit (p : Event -> bool) (ev : Event) :
  p ev = true -> keeps (only p) (emit ev).
Proof. intros H st. exists [ev]. simpl. now rewrite H. Qed.

Lemma only_out (p : Event -> bool) (m : Msg) :
  p (EvOut m) = true -> keeps (only p) (out m).
Proof. apply only_emit. Qed.

Lemma only_set_stats (p : Event -> bool) (s : Stats) :
  keeps (only p) (set_stats s).
Proof. intros st. exists []. simpl. now rewrite app_nil_r. Qed.

Lemma only_axios_get (p : Event -> bool) (w : World) (start lim : Z) :
  p (EvGet start lim) = true -> keeps (only p) (axios_get w start lim).
Proof.
  intros H st. exists [EvGet start lim]. unfold axios_get.
  destruct (on_get w (n_get st) start lim); simpl; now rewrite H.
Qed.

Lemma only_axios_put (p : Event -> bool) (w : World) (threadId : Z) :
  p (EvPut threadId 1) = true -> keeps (only p) (axios_put w threadId).
Proof.
  intros H st. exists [EvPut threadId 1]. unfold axios_put.
  destruct (on_put w (n_put st) threadId); simpl; now rewrite H.
Qed.

(** What a trace that grew by events of one class cannot have gained. *)
Lemma only_flat_map {B} (p : Event -> bool) (f : Event -> list B)
    (st st' : State) :
  (forall ev, p ev = true -> f ev = []) ->
  only p st st' ->
  flat_map f (trace st') = flat_map f (trace st).
Proof.
  intros Hf (d & E & F). rewrite E, flat_map_app.
  assert (N : flat_map f d = []).
  { clear E. induction d as [| ev d IH]; [reflexivity |].
    simpl in *. apply andb_true_iff in F. destruct F as [F1 F2].
    now rewrite (Hf ev F1), IH. }
  now rewrite N, app_nil_r.
Qed.

Lemma only_step (p : Event -> bool) {A} (m : M A) (st : State) o st' :
  keeps (only p) m -> m st = (o, st') -> only p st st'.
Proof. intros K E. specialize (K st). now rewrite E in K. Qed.

#[local] Hint Resolve only_refl only_trans only_set_stats : keeps.
#[local] Hint Extern 2 (keeps (only _) (out _)) =>
  apply only_out; reflexivity : keeps.
#[local] Hint Extern 2 (keeps (only _) (emit _)) =>
  apply only_emit; reflexivity : keeps.
#[local] Hint Extern 2 (keeps (only _) (axios_get _ _ _)) =>
  apply only_axios_get; reflexivity : keeps.
#[local] Hint Extern 2 (keeps (only _) (axios_put _ _)) =>
  apply only_axios_put; reflexivity : keeps.

Lemma only_fetchMailThreads (w : World) (start lim : Z) :
  keeps (only is_fetch) (fetchMailThreads w start lim).
Proof. unfold fetchMailThreads. keeps_auto. Qed.

#[local] Hint Resolve only_fetchMailThreads : keeps.

Lemma only_while_hasMore (w : World) (fuel : nat) :
  forall hasMore allThreads start,
    keeps (only is_fetch) (while_hasMore w fuel hasMore allThreads start).
Proof.
  induction fuel as [| fuel IH]; intros hasMore allThreads start;
    destruct hasMore; simpl; auto with keeps.
  keeps_auto.
Qed.

#[local] Hint Resolve only_while_hasMore : keeps.

Lemma only_getAllThreads (w : World) (fuel : nat) :
  keeps (only is_fetch) (getAllThreads w fuel).
Proof. unfold getAllThreads. keeps_auto. Qed.

Lemma only_displayThreadInfo (p : Event -> bool) (threads : list Thread) :
  (forall m, p (EvOut m) = true) ->
  keeps (only p) (displayThreadInfo threads).
Proof.
  intros Hp.
  assert (Ho : forall m, keeps (only p) (out m))
    by (intros m; apply only_out, Hp).
  unfold displayThreadInfo. keeps_auto.
Qed.

Lemma only_displayStats (p : Event -> bool) :
  (forall m, p (EvOut m) = true) -> keeps (only p) displayStats.
Proof.
  intros Hp.
  assert (Ho : forall m, keeps (only p) (out m))
    by (intros m; apply only_out, Hp).
  unfold displayStats. keeps_auto.
Qed.

Lemma only_confirmArchive (w : World) (threadCount : Z) :
  keeps (only not_get) (confirmArchive w threadCount).
Proof. unfold confirmArchive, inquirer_prompt. keeps_auto. Qed.

Lemma only_incr_archived (p : Event -> bool) : keeps (only p) incr_archived.
Proof. intros st. exists []. simpl. now rewrite app_nil_r. Qed.

Lemma only_incr_failed (p : Event -> bool) : keeps (only p) incr_failed.
Proof. intros st. exists []. simpl. now rewrite app_nil_r. Qed.

#[local] Hint Resolve only_incr_archived only_incr_failed : keeps.

Lemma only_archiveThread (w : World) (threadId : Z) :
  keeps (only not_get) (archiveThread w threadId).
Proof. unfold archiveThread. keeps_auto. Qed.

#[local] Hint Resolve only_archiveThread only_confirmArchive : keeps.

Lemma only_archive_loop (w : World) (n : Z) (rest : list Thread) :
  forall j, keeps (only not_get) (archive_loop w n j rest).
Proof.
  induction rest as [| thread rest IH]; intros j; simpl.
  - auto with keeps.
  - keeps_auto.
Qed.

#[local] Hint Resolve only_archive_loop : keeps.

Lemma only_archiveAll (w : World) (threads : list Thread) :
  keeps (only not_get) (archiveAll w threads).
Proof.
  unfold archiveAll.
  destruct (includes (argv w) "--dry-run").
  - keeps_auto.
  - keeps_step.
    intros st. unfold bind at 1. unfold get_stats.
    unfold bind at 1. unfold set_stats.
    match goal with
    | |- only _ st (snd (?m ?s)) =>
        apply (only_trans _ st s); [exists []; simpl; now rewrite app_nil_r |];
        assert (K : keeps (only not_get) m) by keeps_auto;
        apply K
    end.
Qed.

(** ** The ways [run] can go *)

Lemma fetchMailThreads_outcome (w : World) (start lim : Z) (st : State) :
  (exists body, fst (fetchMailThreads w start lim st) = Ret body) \/
  (exists e, fst (fetchMailThreads w start lim st) = Throw e).
Proof.
  destruct (on_get w (n_get st) start lim) as [[body |] | e] eqn:E.
  - left. exists body. now rewrite (fetchMailThreads_ok w start lim st body E).
  - right. eexists.
    rewrite (fetchMailThreads_error w start lim st (type_error_null "data"));
      [reflexivity | now rewrite E].
  - right. exists e.
    rewrite (fetchMailThreads_error w start lim st e);
      [reflexivity | now rewrite E].
Qed.

Lemma while_hasMore_outcome (w : World) (fuel : nat) :
  forall hasMore allThreads start st c,
    fst (while_hasMore w fuel hasMore allThreads start st) <> Exit c.
Proof.
  induction fuel as [| fuel IH]; intros hasMore allThreads start st c;
    destruct hasMore; simpl; try discriminate.
  unfold bind.
  destruct (fetchMailThreads_outcome w start limit st) as [[body E] | [e E]];
    destruct (fetchMailThreads w start limit st) as [o st1];
    simpl in E; subst o; [| discriminate].
  destruct (data body) as [[| t ts] |]; try apply IH.
  destruct (negb _); apply IH.
Qed.

Lemma getAllThreads_outcome (w : World) (fuel : nat) (st : State) c :
  fst (getAllThreads w fuel st) <> Exit c.
Proof.
  unfold getAllThreads. rewrite bind_out. apply while_hasMore_outcome.
Qed.

Lemma confirmArchive_outcome (w : World) (n : Z) (st : State) :
  (exists b, fst (confirmArchive w n st) = Ret b) \/
  (exists e, fst (confirmArchive w n st) = Throw e).
Proof.
  unfold confirmArchive, inquirer_prompt.
  destruct (includes (argv w) "--yes" || includes (argv w) "-y").
  - left. now exists true.
  - unfold bind. rewrite emit_log.
    destruct (on_prompt w n) as [b | e]; [left; now exists b |
                                          right; now exists e].
Qed.

Lemma archiveAll_eq (w : World) (threads : list Thread) (st : State) :
  archiveAll w threads st = (Ret tt, snd (archiveAll w threads st)).
Proof.
  destruct (includes (argv w) "--dry-run") eqn:Edry.
  - now rewrite (archiveAll_dry w threads st Edry).
  - destruct (archiveAll_spec w threads st Edry) as (st' & E & _).
    now rewrite E.
Qed.

Lemma run_empty (w : World) (fuel : nat) (st st1 : State) :
  getAllThreads w fuel (log [EvOut LogTitle] st) = (Ret [], st1) ->
  run w fuel st = (Ret tt, log [EvOut LogNoThreads] st1).
Proof. intros E. now rewrite (run_after_fetch w fuel st st1 _ E). Qed.

Lemma run_all_archived (w : World) (fuel : nat) (st st1 : State)
    (allThreads : list Thread) :
  getAllThreads w fuel (log [EvOut LogTitle] st) = (Ret allThreads, st1) ->
  allThreads <> [] ->
  unarchived_threads allThreads = [] ->
  run w fuel st
  = (Ret tt,
     log [EvOut LogAllArchived] (snd (displayThreadInfo allThreads st1))).
Proof.
  intros E Hne Hun.
  rewrite (run_after_fetch w fuel st st1 _ E).
  rewrite (len_eqb_0 _ Hne).
  rewrite (try_catch_bind_Ret _ _ _ _ _ _
             (displayThreadInfo_eq allThreads st1)).
  now rewrite Hun.
Qed.

Lemma run_confirm (w : World) (fuel : nat) (st st1 st3 : State)
    (allThreads : list Thread) (o : Outcome bool) :
  getAllThreads w fuel (log [EvOut LogTitle] st) = (Ret allThreads, st1) ->
  unarchived_threads allThreads <> [] ->
  confirmArchive w (len (unarchived_threads allThreads))
    (snd (displayThreadInfo allThreads st1)) = (o, st3) ->
  run w fuel st
  = match o with
    | Ret true =>
        (Ret tt,
         snd (displayStats
                (snd (archiveAll w (unarchived_threads allThreads) st3))))
    | Ret false => (Ret tt, log [EvOut LogCancelled] st3)
    | Throw e => (Exit 1, log [EvOut (ErrFatal (message e))] st3)
    | Exit c => (Exit c, st3)
    | OutOfFuel => (OutOfFuel, st3)
    end.
Proof.
  intros E Hne Ec.
  rewrite (run_after_summary w fuel st st1 allThreads E Hne).
  destruct o as [[|] | e | c |].
  - rewrite (try_catch_bind_Ret _ _ _ _ _ _ Ec). simpl negb. cbv iota.
    rewrite (try_catch_bind_Ret _ _ _ _ _ _ (archiveAll_eq _ _ _)).
    now rewrite (try_catch_Ret _ _ _ _ _ (displayStats_eq _)).
  - now rewrite (try_catch_bind_Ret _ _ _ _ _ _ Ec).
  - now rewrite (try_catch_bind_Throw _ _ _ _ _ _ Ec).
  - now rewrite (try_catch_bind_Exit _ _ _ _ _ _ Ec).
  - now rewrite (try_catch_bind_OutOfFuel _ _ _ _ _ Ec).
Qed.

(** Every way [run] can go, with the state it ends in. *)
Lemma run_cases (w : World) (fuel : nat) (st : State) :
  exists o st1,
    getAllThreads w fuel (log [EvOut LogTitle] st) = (o, st1) /\
    ((exists e,
         o = Throw e /\
         run w fuel st = (Exit 1, log [EvOut (ErrFatal (message e))] st1)) \/
     (o = OutOfFuel /\ run w fuel st = (OutOfFuel, st1)) \/
     (o = Ret [] /\
      run w fuel st = (Ret tt, log [EvOut LogNoThreads] st1)) \/
     (exists allThreads,
         o = Ret allThreads /\ allThreads <> [] /\
         unarchived_threads allThreads = [] /\
         run w fuel st
         = (Ret tt,
            log [EvOut LogAllArchived]
              (snd (displayThreadInfo allThreads st1)))) \/
     (exists allThreads st3,
         o = Ret allThreads /\ unarchived_threads allThreads <> [] /\
         ((confirmArchive w (len (unarchived_threads allThreads))
             (snd (displayThreadInfo allThreads st1)) = (Ret true, st3) /\
           run w fuel st
           = (Ret tt,
              snd (displayStats
                     (snd (archiveAll w (unarchived_threads allThreads)
                             st3))))) \/
          (confirmArchive w (len (unarchived_threads allThreads))
             (snd (displayThreadInfo allThreads st1)) = (Ret false, st3) /\
           run w fuel st = (Ret tt, log [EvOut LogCancelled] st3)) \/
          (exists e,
              confirmArchive w (len (unarchived_threads allThreads))
                (snd (displayThreadInfo allThreads st1)) = (Throw e, st3) /\
              run w fuel st
              = (Exit 1, log [EvOut (ErrFatal (message e))] st3))))).
Proof.
  destruct (getAllThreads w fuel (log [EvOut LogTitle] st)) as [o st1] eqn:E.
  exists o, st1. split; [reflexivity |].
  destruct o as [allThreads | e | c |].
  - destruct allThreads as [| t0 ts0] eqn:Eall.
    { right; right; left. split; [reflexivity |]. now apply run_empty. }
    rewrite <- Eall in *.
    assert (Hall : allThreads <> []) by (rewrite Eall; discriminate).
    clear Eall t0 ts0.
    destruct (unarchived_threads allThreads) as [| u0 us0] eqn:Eun.
    { right; right; right; left. exists allThreads.
      repeat split; try assumption. now apply run_all_archived. }
    assert (Hne : unarchived_threads allThreads <> [])
      by (rewrite Eun; discriminate).
    clear Eun u0 us0.
    right; right; right; right.
    destruct (confirmArchive w (len (unarchived_threads allThreads))
                (snd (displayThreadInfo allThreads st1))) as [oc st3] eqn:Ec.
    exists allThreads, st3. split; [reflexivity |]. split; [exact Hne |].
    pose proof (run_confirm w fuel st st1 st3 allThreads oc E Hne Ec) as R.
    destruct (confirmArchive_outcome w (len (unarchived_threads allThreads))
                (snd (displayThreadInfo allThreads st1))) as [[b Hb] | [e He]].
    + rewrite Ec in Hb. simpl in Hb. subst oc.
      destruct b; [left | right; left]; now split.
    + rewrite Ec in He. simpl in He. subst oc.
      right; right. exists e. now split.
  - left. exists e. split; [reflexivity |].
    now rewrite (run_after_fetch w fuel st st1 _ E).
  - exfalso.
    apply (getAllThreads_outcome w fuel (log [EvOut LogTitle] st) c).
    now rewrite E.
  - right; left. split; [reflexivity |].
    now rewrite (run_after_fetch w fuel st st1 _ E).
Qed.

Lemma only_log_out (p : Event -> bool) (m : Msg) (st : State) :
  p (EvOut m) = true -> only p st (log [EvOut m] st).
Proof. intros H. exact (only_out p m H st). Qed.

Lemma only_after_title (w : World) (fuel : nat) (st st1 : State) o :
  getAllThreads w fuel (log [EvOut LogTitle] st) = (o, st1) ->
  only is_fetch st st1 /\ quiet st st1.
Proof.
  intros E. split.
  - eapply only_trans; [apply (only_log_out is_fetch LogTitle st eq_refl) |].
    exact (only_step _ _ _ _ _ (only_getAllThreads w fuel) E).
  - eapply quiet_trans; [apply (quiet_log_out LogTitle) |].
    exact (quiet_step _ _ _ _ (quiet_getAllThreads w fuel) E).
Qed.

Lemma is_fetch_prompts (ev : Event) :
  is_fetch ev = true ->
  match ev with EvPrompt n => [n] | _ => [] end = [].
Proof. now destruct ev. Qed.

Lemma is_fetch_sleeps (ev : Event) :
  is_fetch ev = true ->
  match ev with EvSleep n => [n] | _ => [] end = [].
Proof. now destruct ev. Qed.

Lemma is_output_is_fetch (ev : Event) :
  is_output ev = true -> is_fetch ev = true.
Proof. now destruct ev. Qed.

Lemma is_output_not_get (ev : Event) :
  is_output ev = true -> not_get ev = true.
Proof. now destruct ev. Qed.

(** X1.  [run] never lets an exception escape: it returns, or it leaves
    with [process.exit(1)]; the only other possibility is that fetching the
    pages never ends. *)
Theorem run_never_throws (w : World) (fuel : nat) (st : State) :
  fst (run w fuel st) = Ret tt \/
  fst (run w fuel st) = Exit 1 \/
  (fst (run w fuel st) = OutOfFuel /\
   fst (getAllThreads w fuel (log [EvOut LogTitle] st)) = OutOfFuel).
Proof.
  destruct (run_cases w fuel st) as (o & st1 & E & C).
  rewrite E. simpl.
  destruct C as [(e & -> & R) | [(-> & R) | [(-> & R) | [C | C]]]];
    try (rewrite R; simpl; auto; fail).
  - destruct C as (allThreads & -> & _ & _ & R). rewrite R. now left.
  - destruct C as (allThreads & st3 & -> & _ & C).
    destruct C as [(_ & R) | [(_ & R) | (e & _ & R)]]; rewrite R; simpl; auto.
Qed.

(** X2.  [run] fetches first and archives afterwards: its trace is a
    first part made of GETs and output only, followed by a second part
    without any GET. *)
Theorem run_fetches_before_archiving (w : World) (fuel : nat) (st : State) :
  exists d1 d2,
    trace (snd (run w fuel st)) = trace st ++ d1 ++ d2 /\
    forallb is_fetch d1 = true /\
    forallb not_get d2 = true.
Proof.
  destruct (run_cases w fuel st) as (o & st1 & E & C).
  destruct (only_after_title w fuel st st1 o E) as ((d1 & T1 & F1) & _).
  assert (H : only not_get st1 (snd (run w fuel st))).
  { destruct C as [(e & -> & R) | [(-> & R) | [(-> & R) | [C | C]]]].
    - rewrite R. now apply only_log_out.
    - rewrite R. apply only_refl.
    - rewrite R. now apply only_log_out.
    - destruct C as (allThreads & -> & _ & _ & R). rewrite R. simpl snd.
      eapply only_trans; [| now apply only_log_out].
      now apply only_displayThreadInfo.
    - destruct C as (allThreads & st3 & -> & _ & C).
      assert (H3 : only not_get st1 st3 ->
                   only not_get st1 (snd (run w fuel st))).
      { intros H3.
        destruct C as [(_ & R) | [(_ & R) | (e & _ & R)]]; rewrite R; simpl snd.
        - eapply only_trans; [exact H3 |].
          eapply only_trans; [apply only_archiveAll |].
          now apply only_displayStats.
        - eapply only_trans; [exact H3 | now apply only_log_out].
        - eapply only_trans; [exact H3 | now apply only_log_out]. }
      apply H3.
      eapply only_trans;
        [apply (only_displayThreadInfo not_get allThreads); reflexivity |].
      destruct C as [(Ec & _) | [(Ec & _) | (e & Ec & _)]];
        exact (only_step _ _ _ _ _ (only_confirmArchive w _) Ec). }
  destruct H as (d2 & T2 & F2).
  exists d1, d2. rewrite T2, T1, app_assoc. now repeat split.
Qed.

(** X3.  No thread is archived without consent: if [run] sent a PUT,
    the script was not started with [--dry-run], and either it was started
    with [--yes] or [-y], or the user was asked and answered yes. *)
Theorem no_archive_without_consent (w : World) (fuel : nat) (st : State) :
  put_requests (trace (snd (run w fuel st))) <> put_requests (trace st) ->
  includes (argv w) "--dry-run" = false /\
  (includes (argv w) "--yes" = true \/
   includes (argv w) "-y" = true \/
   exists n,
     on_prompt w n = Answered true /\
     In n (prompts (trace (snd (run w fuel st))))).
Proof.
  intros Hput.
  destruct (run_cases w fuel st) as (o & st1 & E & C).
  destruct (only_after_title w fuel st st1 o E) as (_ & Q1).
  assert (Hq : forall final, quiet st final ->
                             run w fuel st = (Ret tt, final) \/
                             run w fuel st = (Exit 1, final) \/
                             run w fuel st = (OutOfFuel, final) -> False).
  { intros final (Q & _) [R | [R | R]]; rewrite R in Hput; now apply Hput. }
  destruct C as [(e & -> & R) | [(-> & R) | [(-> & R) | [C | C]]]].
  - exfalso. eapply Hq; [| right; left; exact R].
    eapply quiet_trans; [exact Q1 | apply quiet_log_out].
  - exfalso. eapply Hq; [exact Q1 | right; right; exact R].
  - exfalso. eapply Hq; [| left; exact R].
    eapply quiet_trans; [exact Q1 | apply quiet_log_out].
  - exfalso. destruct C as (allThreads & -> & _ & _ & R).
    eapply Hq; [| left; exact R].
    eapply quiet_trans; [exact Q1 |].
    eapply quiet_trans; [apply quiet_displayThreadInfo | apply quiet_log_out].
  - destruct C as (allThreads & st3 & -> & _ & C).
    set (st2 := snd (displayThreadInfo allThreads st1)) in *.
    assert (Q2 : quiet st st2)
      by (eapply quiet_trans; [exact Q1 | apply quiet_displayThreadInfo]).
    destruct C as [(Ec & R) | [(Ec & R) | (e & Ec & R)]].
    + assert (Q3 : quiet st st3).
      { eapply quiet_trans; [exact Q2 |].
        exact (quiet_step _ _ _ _ (quiet_confirmArchive w _) Ec). }
      destruct (includes (argv w) "--dry-run") eqn:Edry.
      { exfalso. eapply Hq; [| left; exact R].
        eapply quiet_trans; [exact Q3 |].
        eapply quiet_trans; [| apply quiet_displayStats].
        now apply quiet_archiveAll_dry. }
      split; [reflexivity |].
      destruct (includes (argv w) "--yes") eqn:Ey; [now left |].
      destruct (includes (argv w) "-y") eqn:Ey'; [right; now left |].
      right; right.
      rewrite (confirmArchive_asks w _ st2 Ey Ey') in Ec.
      exists (len (unarchived_threads allThreads)).
      destruct (on_prompt w (len (unarchived_threads allThreads)))
        as [b | e]; [| discriminate].
      injection Ec as -> <-. split; [reflexivity |].
      rewrite R. simpl snd.
      assert (H : only not_get (log [EvPrompt (len (unarchived_threads
                                                      allThreads))] st2)
                    (snd (displayStats
                            (snd (archiveAll w
                                    (unarchived_threads allThreads)
                                    (log [EvPrompt
                                            (len (unarchived_threads
                                                    allThreads))] st2)))))).
      { eapply only_trans; [apply only_archiveAll |].
        now apply only_displayStats. }
      destruct H as (d & T & _). rewrite T. simpl trace.
      unfold prompts. rewrite !flat_map_app. simpl.
      apply in_or_app. left. apply in_or_app. right. now left.
    + exfalso. eapply Hq; [| left; exact R].
      eapply quiet_trans; [exact Q2 |].
      eapply quiet_trans;
        [exact (quiet_step _ _ _ _ (quiet_confirmArchive w _) Ec) |].
      apply quiet_log_out.
    + exfalso. eapply Hq; [| right; left; exact R].
      eapply quiet_trans; [exact Q2 |].
      eapply quiet_trans;
        [exact (quiet_step _ _ _ _ (quiet_confirmArchive w _) Ec) |].
      apply quiet_log_out.
Qed.

Lemma no_archive_without_consent_witness :
  let w := sample_world [] true in
  includes (argv w) "--dry-run" = false /\
  (includes (argv w) "--yes" = true \/
   includes (argv w) "-y" = true \/
   exists n,
     on_prompt w n = Answered true /\
     In n (prompts (trace (snd (run w 5 start_state))))).
Proof.
  intros w.
  apply (no_archive_without_consent w 5 start_state).
  vm_compute. discriminate.
Defined.

(** ** The early ends of [run] *)

Lemma only_is_fetch_prompts (st st' : State) :
  only is_fetch st st' -> prompts (trace st') = prompts (trace st).
Proof. apply only_flat_map. exact is_fetch_prompts. Qed.

(** X4.  An empty inbox: [run] says that no thread was found and
    returns; the user is not asked anything, no PUT is sent and the
    statistics are untouched. *)
Theorem run_empty_inbox (w : World) (fuel : nat) (st st1 : State) :
  getAllThreads w fuel (log [EvOut LogTitle] st) = (Ret [], st1) ->
  let final := log [EvOut LogNoThreads] st1 in
  run w fuel st = (Ret tt, final) /\
  prompts (trace final) = prompts (trace st) /\
  put_requests (trace final) = put_requests (trace st) /\
  stats final = stats st.
Proof.
  intros E final. subst final.
  destruct (only_after_title w fuel st st1 _ E) as (O1 & Q1).
  split; [now apply run_empty |].
  split.
  - apply only_is_fetch_prompts.
    eapply only_trans; [exact O1 | now apply only_log_out].
  - destruct (quiet_trans _ _ _ Q1 (quiet_log_out LogNoThreads st1))
      as (Q & _ & S).
    now split.
Qed.

Lemma run_empty_inbox_witness :
  let w := world_of [] (Some "token") (one_page []) (Answered true) in
  let st1 := snd (getAllThreads w 5 (log [EvOut LogTitle] start_state)) in
  let final := log [EvOut LogNoThreads] st1 in
  run w 5 start_state = (Ret tt, final) /\
  prompts (trace final) = prompts (trace start_state) /\
  put_requests (trace final) = put_requests (trace start_state) /\
  stats final = stats start_state.
Proof.
  intros w st1.
  apply (run_empty_inbox w 5 start_state st1).
  reflexivity.
Defined.

(** X5.  An inbox where every thread is archived already: after the
    summary [run] says so and returns; the user is not asked anything, no
    PUT is sent and the statistics are untouched. *)
Theorem run_nothing_to_archive (w : World) (fuel : nat) (st st1 : State)
    (allThreads : list Thread) :
  getAllThreads w fuel (log [EvOut LogTitle] st) = (Ret allThreads, st1) ->
  allThreads <> [] ->
  unarchived_threads allThreads = [] ->
  let final :=
    log [EvOut LogAllArchived] (snd (displayThreadInfo allThreads st1)) in
  run w fuel st = (Ret tt, final) /\
  prompts (trace final) = prompts (trace st) /\
  put_requests (trace final) = put_requests (trace st) /\
  stats final = stats st.
Proof.
  intros E Hne Hun final. subst final.
  destruct (only_after_title w fuel st st1 _ E) as (O1 & Q1).
  split; [now apply run_all_archived |].
  split.
  - apply only_is_fetch_prompts.
    eapply only_trans; [exact O1 |].
    eapply only_trans; [| now apply only_log_out].
    now apply only_displayThreadInfo.
  - assert (Q : quiet st (log [EvOut LogAllArchived]
                            (snd (displayThreadInfo allThreads st1)))).
    { eapply quiet_trans; [exact Q1 |].
      eapply quiet_trans; [apply quiet_displayThreadInfo |].
      apply quiet_log_out. }
    destruct Q as (Q & _ & S). now split.
Qed.

Lemma run_nothing_to_archive_witness :
  let w := world_of [] (Some "token")
             (one_page [sample_thread 2 1; sample_thread 5 1])
             (Answered true) in
  let st1 := snd (getAllThreads w 5 (log [EvOut LogTitle] start_state)) in
  let final :=
    log [EvOut LogAllArchived]
      (snd (displayThreadInfo [sample_thread 2 1; sample_thread 5 1] st1)) in
  run w 5 start_state = (Ret tt, final) /\
  prompts (trace final) = prompts (trace start_state) /\
  put_requests (trace final) = put_requests (trace start_state) /\
  stats final = stats start_state.
Proof.
  intros w st1.
  apply (run_nothing_to_archive w 5 start_state st1
           [sample_thread 2 1; sample_thread 5 1]).
  - reflexivity.
  - discriminate.
  - reflexivity.
Defined.

(** X6.  If the prompt itself fails (no [--yes], no [-y]), the error is
    fatal: [run] reports it and leaves with [process.exit(1)], without any
    PUT and with the statistics untouched. *)
Theorem run_prompt_failure (w : World) (fuel : nat) (st st1 : State)
    (allThreads : list Thread) (e : JsError) :
  getAllThreads w fuel (log [EvOut LogTitle] st) = (Ret allThreads, st1) ->
  unarchived_threads allThreads <> [] ->
  includes (argv w) "--yes" = false ->
  includes (argv w) "-y" = false ->
  on_prompt w (len (unarchived_threads allThreads)) = PromptFail e ->
  let final :=
    log [EvPrompt (len (unarchived_threads allThreads));
         EvOut (ErrFatal (message e))]
      (snd (displayThreadInfo allThreads st1)) in
  run w fuel st = (Exit 1, final) /\
  put_requests (trace final) = put_requests (trace st) /\
  stats final = stats st.
Proof.
  intros E Hne Hy Hy' Hp final. subst final.
  destruct (only_after_title w fuel st st1 _ E) as (_ & Q1).
  pose proof (confirmArchive_asks w (len (unarchived_threads allThreads))
                (snd (displayThreadInfo allThreads st1)) Hy Hy') as Ec.
  rewrite Hp in Ec.
  split.
  - rewrite (run_confirm w fuel st st1 _ allThreads _ E Hne Ec).
    now rewrite log_log.
  - pose proof (quiet_trans _ _ _ Q1
                  (quiet_displayThreadInfo allThreads st1)) as (Q & _ & S).
    simpl. rewrite put_requests_app. simpl. rewrite app_nil_r. now split.
Qed.

Lemma run_prompt_failure_witness :
  let w := world_of [] (Some "token") (one_page sample_inbox)
             (PromptFail sample_error) in
  let st1 := snd (getAllThreads w 5 (log [EvOut LogTitle] start_state)) in
  let final :=
    log [EvPrompt 3; EvOut (ErrFatal (message sample_error))]
      (snd (displayThreadInfo sample_inbox st1)) in
  run w 5 start_state = (Exit 1, final) /\
  put_requests (trace final) = put_requests (trace start_state) /\
  stats final = stats start_state.
Proof.
  intros w st1.
  apply (run_prompt_failure w 5 start_state st1 sample_inbox sample_error);
    try reflexivity.
  discriminate.
Defined.

(** ** The report of [displayStats] *)

Lemma displayStats_trace (st : State) :
  trace (snd (displayStats st))
  = trace st
    ++ [EvOut LogResults; EvOut (LogProcessed (total (stats st)));
        EvOut (LogArchived (archived (stats st)))]
    ++ (if failed (stats st) >? 0
        then [EvOut (LogFailed (failed (stats st)))] else []).
Proof.
  unfold displayStats, bind, get_stats, out, emit. simpl.
  destruct (failed (stats st) >? 0); simpl; rewrite <- ?app_assoc; reflexivity.
Qed.

(** X7.  After a confirmed archiving on a new archiver, the report shows
    the number of unarchived threads as processed and the number of
    acknowledged PUTs as archived; the line of failures is there exactly
    when some PUT was not acknowledged.  The statistics hold the same
    numbers. *)
Theorem run_reports_counts (w : World) (fuel : nat)
    (st_new st st1 st3 : State) (allThreads : list Thread) :
  constructor w st_new = (Ret tt, st) ->
  getAllThreads w fuel (log [EvOut LogTitle] st) = (Ret allThreads, st1) ->
  unarchived_threads allThreads <> [] ->
  confirmArchive w (len (unarchived_threads allThreads))
    (snd (displayThreadInfo allThreads st1)) = (Ret true, st3) ->
  includes (argv w) "--dry-run" = false ->
  let u := unarchived_threads allThreads in
  let a := len (filter acknowledged (put_responses w (n_put st) u)) in
  exists final tr,
    run w fuel st = (Ret tt, final) /\
    trace final
    = tr
      ++ [EvOut LogResults; EvOut (LogProcessed (len u));
          EvOut (LogArchived a)]
      ++ (if len u - a >? 0 then [EvOut (LogFailed (len u - a))] else []) /\
    stats final
    = {| total := len u; archived := a; alreadyArchived := 0;
         failed := len u - a |}.
Proof.
  intros Hnew E Hne Ec Hdry u a. subst u a.
  destruct (constructor_spec w st_new st Hnew) as (Hzero & _).
  destruct (only_after_title w fuel st st1 _ E) as (_ & Q1).
  assert (Q3 : quiet st st3).
  { eapply quiet_trans; [exact Q1 |].
    eapply quiet_trans; [apply quiet_displayThreadInfo |].
    exact (quiet_step _ _ _ _ (quiet_confirmArchive w _) Ec). }
  destruct Q3 as (_ & NP3 & S3).
  destruct (archiveAll_spec w (unarchived_threads allThreads) st3 Hdry)
    as (st4 & Ea & T & AA & Ar & F & _).
  pose proof (filter_negb_length acknowledged
                (put_responses w (n_put st3)
                   (unarchived_threads allThreads))) as HL.
  unfold len in HL. rewrite put_responses_length in HL.
  fold (len (unarchived_threads allThreads)) in HL.
  rewrite S3, Hzero in AA, Ar, F. simpl in AA, Ar, F.
  rewrite NP3 in *.
  set (a := len (filter acknowledged
                   (put_responses w (n_put st)
                      (unarchived_threads allThreads)))) in *.
  assert (S4 : stats st4
               = {| total := len (unarchived_threads allThreads);
                    archived := a; alreadyArchived := 0;
                    failed := len (unarchived_threads allThreads) - a |}).
  { destruct (stats st4) as [t4 a4 aa4 f4]; simpl in *.
    f_equal; try assumption.
    unfold len in *. fold a in HL. lia. }
  exists (snd (displayStats st4)), (trace st4).
  split.
  { rewrite (run_confirm w fuel st st1 st3 allThreads _ E Hne Ec).
    now rewrite Ea. }
  split.
  - rewrite displayStats_trace, S4. reflexivity.
  - destruct (quiet_displayStats st4) as (_ & _ & S). now rewrite S.
Qed.

Lemma run_reports_counts_witness :
  let w := sample_world ["--yes"] true in
  exists final tr,
    run w 5 start_state = (Ret tt, final) /\
    trace final
    = tr
      ++ [EvOut LogResults; EvOut (LogProcessed 3); EvOut (LogArchived 2)]
      ++ [EvOut (LogFailed 1)] /\
    stats final
    = {| total := 3; archived := 2; alreadyArchived := 0; failed := 1 |}.
Proof.
  intros w.
  apply (run_reports_counts w 5 start_state start_state
           (snd (getAllThreads w 5 (log [EvOut LogTitle] start_state)))
           (snd (displayThreadInfo sample_inbox
                   (snd (getAllThreads w 5
                           (log [EvOut LogTitle] start_state)))))
           sample_inbox);
    try reflexivity.
  discriminate.
Defined.

(** X8.  A dry run does not skip the confirmation: without [--yes] and
    [-y] the user is asked once, about the number of unarchived threads.
    On yes, the threads are listed and the report that follows shows the
    counters of an archiver that archived nothing; on no, the run is
    cancelled.  Either way no PUT is sent and the statistics are
    untouched. *)
Theorem dry_run_still_confirms (w : World) (fuel : nat)
    (st st1 : State) (allThreads : list Thread) (answer : bool) :
  getAllThreads w fuel (log [EvOut LogTitle] st) = (Ret allThreads, st1) ->
  unarchived_threads allThreads <> [] ->
  includes (argv w) "--dry-run" = true ->
  includes (argv w) "--yes" = false ->
  includes (argv w) "-y" = false ->
  on_prompt w (len (unarchived_threads allThreads)) = Answered answer ->
  let u := unarchived_threads allThreads in
  exists final,
    run w fuel st = (Ret tt, final) /\
    prompts (trace final) = prompts (trace st) ++ [len u] /\
    put_requests (trace final) = put_requests (trace st) /\
    stats final = stats st /\
    exists tr,
      trace final
      = tr ++
        if answer then
          EvOut LogDryRun
          :: map (fun t => EvOut (LogWouldArchive (subject_text t)
                                    (parties_text t))) u
          ++ [EvOut LogResults; EvOut (LogProcessed (total (stats st)));
              EvOut (LogArchived (archived (stats st)))]
          ++ (if failed (stats st) >? 0
              then [EvOut (LogFailed (failed (stats st)))] else [])
        else [EvOut LogCancelled].
Proof.
  intros E Hne Hdry Hy Hy' Hp u. subst u.
  destruct (only_after_title w fuel st st1 _ E) as (O1 & Q1).
  set (st2 := snd (displayThreadInfo allThreads st1)).
  set (n := len (unarchived_threads allThreads)) in *.
  assert (O2 : only is_fetch st st2).
  { eapply only_trans; [exact O1 |]. now apply only_displayThreadInfo. }
  assert (Q2 : quiet st st2)
    by (eapply quiet_trans; [exact Q1 | apply quiet_displayThreadInfo]).
  pose proof (confirmArchive_asks w n st2 Hy Hy') as Ec.
  rewrite Hp in Ec.
  pose proof (run_confirm w fuel st st1 _ allThreads _ E Hne Ec) as R.
  assert (P3 : prompts (trace (log [EvPrompt n] st2))
               = prompts (trace st) ++ [n]).
  { simpl. unfold prompts at 1. rewrite flat_map_app. simpl.
    fold (prompts (trace st2)). now rewrite (only_is_fetch_prompts _ _ O2). }
  assert (Q3 : quiet st (log [EvPrompt n] st2)).
  { eapply quiet_trans; [exact Q2 |].
    apply (quiet_emit (EvPrompt n)). discriminate. }
  destruct answer.
  - pose proof (archiveAll_dry w (unarchived_threads allThreads)
                  (log [EvPrompt n] st2) Hdry) as Ea.
    rewrite Ea in R. simpl snd in R.
    set (st4 := log _ (log [EvPrompt n] st2)) in *.
    assert (Q4 : quiet st st4).
    { eapply quiet_trans; [exact Q3 |].
      pose proof (quiet_archiveAll_dry w (unarchived_threads allThreads)
                    (log [EvPrompt n] st2) Hdry) as Q.
      now rewrite Ea in Q. }
    exists (snd (displayStats st4)). split; [exact R |].
    destruct (quiet_trans _ _ _ Q4 (quiet_displayStats st4)) as (Q & _ & S).
    destruct Q4 as (_ & _ & S4).
    split.
    { assert (O : only is_fetch (log [EvPrompt n] st2)
                    (snd (displayStats st4))).
      { eapply only_trans; [| now apply only_displayStats].
        eexists. split; [reflexivity |].
        simpl. apply forallb_forall. intros ev Hev.
        apply in_map_iff in Hev. now destruct Hev as (t & <- & _). }
      now rewrite (only_is_fetch_prompts _ _ O). }
    split; [exact Q |]. split; [exact S |].
    exists (trace st2 ++ [EvPrompt n]).
    rewrite displayStats_trace, S4. subst st4. simpl trace.
    rewrite <- !app_assoc. reflexivity.
  - exists (log [EvOut LogCancelled] (log [EvPrompt n] st2)).
    split; [exact R |].
    destruct (quiet_trans _ _ _ Q3
                (quiet_log_out LogCancelled (log [EvPrompt n] st2)))
      as (Q & _ & S).
    split.
    { simpl trace in *. unfold prompts in *.
      rewrite flat_map_app. simpl. rewrite app_nil_r. exact P3. }
    split; [exact Q |]. split; [exact S |].
    exists (trace st2 ++ [EvPrompt n]). reflexivity.
Qed.

Lemma dry_run_still_confirms_witness :
  let w := sample_world ["--dry-run"] true in
  let u := unarchived_threads sample_inbox in
  exists final,
    run w 5 start_state = (Ret tt, final) /\
    prompts (trace final) = prompts (trace start_state) ++ [len u] /\
    put_requests (trace final) = put_requests (trace start_state) /\
    stats final = stats start_state /\
    exists tr,
      trace final
      = tr ++
        EvOut LogDryRun
        :: map (fun t => EvOut (LogWouldArchive (subject_text t)
                                  (parties_text t))) u
        ++ [EvOut LogResults; EvOut (LogProcessed 0); EvOut (LogArchived 0)]
        ++ [].
Proof.
  intros w.
  apply (dry_run_still_confirms w 5 start_state
           (snd (getAllThreads w 5 (log [EvOut LogTitle] start_state)))
           sample_inbox true);
    try reflexivity.
  discriminate.
Defined.

(** ** The two requests *)

(** X9.  [fetchMailThreads] sends one GET.  If it resolves with a body,
    the body is returned and the number of its threads is shown (0 for a
    body without [data]).  Otherwise the failure is shown, with the error
    text of the server if there is one and the message of the error if not,
    and the same error is thrown again; a [null] body counts as a
    [TypeError]. *)
Theorem fetchMailThreads_rethrows (w : World) (start lim : Z) (st : State) :
  let st' := snd (fetchMailThreads w start lim st) in
  get_requests (trace st') = get_requests (trace st) ++ [(start, lim)] /\
  match on_get w (n_get st) start lim with
  | GetOk (Some body) =>
      fst (fetchMailThreads w start lim st) = Ret body /\
      trace st'
      = trace st ++ [EvOut (SpinFetching start); EvGet start lim;
                     EvOut (SpinFetched
                              (match data body with
                               | Some items => len items
                               | None => 0
                               end))]
  | GetOk None =>
      fst (fetchMailThreads w start lim st)
      = Throw (type_error_null "data") /\
      trace st'
      = trace st ++ [EvOut (SpinFetching start); EvGet start lim;
                     EvOut SpinFetchFailed;
                     EvOut (ErrFetch (message (type_error_null "data")))]
  | GetFail e =>
      fst (fetchMailThreads w start lim st) = Throw e /\
      trace st'
      = trace st ++ [EvOut (SpinFetching start); EvGet start lim;
                     EvOut SpinFetchFailed;
                     EvOut (ErrFetch
                              (match response_error e with
                               | Some s =>
                                   if (s =? "")%string then message e else s
                               | None => message e
                               end))]
  end.
Proof.
  intros st'. subst st'.
  destruct (on_get w (n_get st) start lim) as [[body |] | e] eqn:E.
  - rewrite (fetchMailThreads_ok w start lim st body E). simpl.
    rewrite get_requests_app. now repeat split.
  - rewrite (fetchMailThreads_error w start lim st (type_error_null "data"))
      by now rewrite E.
    simpl. rewrite get_requests_app. now repeat split.
  - rewrite (fetchMailThreads_error w start lim st e) by now rewrite E.
    simpl. rewrite get_requests_app. now repeat split.
Qed.

Lemma archiveThread_trace (w : World) (i : Z) (st : State) :
  trace (snd (archiveThread w i st))
  = trace st
    ++ EvPut i 1
       :: match put_error (on_put w (n_put st) i) with
          | Some e => [EvOut (ErrArchive i (error_text e))]
          | None => []
          end.
Proof.
  unfold archiveThread, try_catch, bind, axios_put.
  destruct (on_put w (n_put st) i) as [[body |] | e]; simpl.
  - destruct (Js.truthy (success body)); reflexivity.
  - now rewrite <- app_assoc.
  - now rewrite <- app_assoc.
Qed.

(** X10.  [archiveThread] writes an error line only for what it catches:
    a rejected PUT (with the error text of the server if there is one) or a
    [null] body.  A response that merely lacks the acknowledgment is counted
    as failed without a word. *)
Theorem archiveThread_logs_only_thrown (w : World) (i : Z) (st : State) :
  let st' := snd (archiveThread w i st) in
  match on_put w (n_put st) i with
  | PutOk (Some body) =>
      trace st' = trace st ++ [EvPut i 1] /\
      failed (stats st')
      = failed (stats st) + (if Js.truthy (success body) then 0 else 1)
  | PutOk None =>
      trace st'
      = trace st
        ++ [EvPut i 1;
            EvOut (ErrArchive i (message (type_error_null "success")))] /\
      failed (stats st') = failed (stats st) + 1
  | PutFail e =>
      trace st'
      = trace st ++ [EvPut i 1; EvOut (ErrArchive i (error_text e))] /\
      failed (stats st') = failed (stats st) + 1
  end.
Proof.
  intros st'. subst st'.
  pose proof (archiveThread_trace w i st) as T.
  destruct (archiveThread_spec w i st) as (st1 & E & _ & _ & _ & F & _).
  rewrite E in *. simpl snd in *.
  destruct (on_put w (n_put st) i) as [[body |] | e]; simpl in *.
  - now split.
  - now split.
  - now split.
Qed.

Lemma while_hasMore_false (w : World) (fuel : nat) allThreads start :
  while_hasMore w fuel false allThreads start = ret allThreads.
Proof. now destruct fuel. Qed.

Lemma fetchMailThreads_get_requests (w : World) (start lim : Z) (st : State) :
  get_requests (trace (snd (fetchMailThreads w start lim st)))
  = get_requests (trace st) ++ [(start, lim)] /\
  n_get (snd (fetchMailThreads w start lim st)) = S (n_get st).
Proof.
  destruct (on_get w (n_get st) start lim) as [[body |] | e] eqn:E.
  - rewrite (fetchMailThreads_ok w start lim st body E). simpl.
    now rewrite get_requests_app.
  - rewrite (fetchMailThreads_error w start lim st (type_error_null "data"))
      by now rewrite E.
    simpl. now rewrite get_requests_app.
  - rewrite (fetchMailThreads_error w start lim st e) by now rewrite E.
    simpl. now rewrite get_requests_app.
Qed.

Lemma while_hasMore_requests (w : World) (fuel : nat) :
  forall hasMore allThreads start st,
    let st' := snd (while_hasMore w fuel hasMore allThreads start st) in
    exists m,
      (m <= fuel)%nat /\
      (hasMore = true -> (0 < fuel)%nat -> (0 < m)%nat) /\
      get_requests (trace st')
      = get_requests (trace st)
        ++ map (fun j => (start + limit * Z.of_nat j, limit)) (seq 0 m) /\
      n_get st' = (n_get st + m)%nat.
Proof.
  induction fuel as [| fuel IH]; intros hasMore allThreads start st st';
    subst st'.
  - exists 0%nat. destruct hasMore; simpl; rewrite app_nil_r;
      repeat split; try lia; discriminate.
  - destruct hasMore.
    2: { exists 0%nat. simpl. rewrite app_nil_r.
         repeat split; try lia; discriminate. }
    simpl while_hasMore. unfold bind.
    destruct (fetchMailThreads_get_requests w start limit st) as (G & N).
    destruct (fetchMailThreads w start limit st) as [[body | e | c |] st1];
      simpl snd in *.
    2, 3, 4: exists 1%nat; simpl; rewrite G;
      (repeat split; [lia | lia | repeat f_equal; lia | lia]).
    assert (Hone : forall acc s,
               exists m : nat,
                 (m <= S fuel)%nat /\
                 (true = true -> (0 < S fuel)%nat -> (0 < m)%nat) /\
                 get_requests
                   (trace (snd (while_hasMore w fuel false acc s st1)))
                 = get_requests (trace st)
                   ++ map (fun j => (start + limit * Z.of_nat j, limit))
                        (seq 0 m) /\
                 n_get (snd (while_hasMore w fuel false acc s st1))
                 = (n_get st + m)%nat).
    { intros acc s. rewrite while_hasMore_false. exists 1%nat. simpl.
      rewrite G.
      repeat split; [lia | lia | repeat f_equal; lia | lia]. }
    destruct (data body) as [[| t ts] |]; try apply Hone.
    destruct (negb (Js.truthy (more_items body))); [apply Hone |].
    destruct (IH true (allThreads ++ t :: ts) (start + limit) st1)
      as (m & Hm & _ & G1 & N1).
    exists (S m). repeat split; try lia.
    rewrite G1, G, <- app_assoc.
    change (seq 0 (S m)) with (0%nat :: seq 1 m).
    rewrite <- seq_shift. cbn [map app]. rewrite map_map.
    rewrite (map_ext
               (fun j => (start + limit * Z.of_nat (S j), limit))
               (fun j => (start + limit + limit * Z.of_nat j, limit)))
      by (intros j; f_equal; lia).
    replace (start + limit * Z.of_nat 0) with start by lia.
    reflexivity.
Qed.

(** X11.  Whatever the service answers and however [getAllThreads] ends,
    its requests are the first [m] pages, in order: offsets 0, 100, ...,
    100 * (m - 1), each with limit 100, no offset asked twice and none
    skipped.  There is at least one request. *)
Theorem getAllThreads_requests (w : World) (fuel : nat) (st : State) :
  let st' := snd (getAllThreads w fuel st) in
  exists m,
    (m <= fuel)%nat /\
    (fuel = 0%nat \/ (0 < m)%nat) /\
    get_requests (trace st') = get_requests (trace st) ++ offsets m /\
    n_get st' = (n_get st + m)%nat.
Proof.
  intros st'. subst st'. unfold getAllThreads. rewrite bind_out.
  destruct (while_hasMore_requests w fuel true [] 0
              (log [EvOut LogFetchingAll] st)) as (m & Hm & Hpos & G & N).
  exists m. simpl in G, N.
  rewrite get_requests_app in G. simpl in G. rewrite app_nil_r in G.
  repeat split; auto.
  destruct fuel; [now left | right; apply Hpos; [reflexivity | lia]].
Qed.

(** ** The archiving loop, again *)

(** X12.  Out of a dry run, [archiveAll] overwrites [total] with the
    number of threads but adds to [archived] and [failed]: every thread
    ends in exactly one of the two counters, on top of what they held. *)
Theorem archiveAll_accumulates (w : World) (threads : list Thread)
    (st : State) :
  includes (argv w) "--dry-run" = false ->
  exists st',
    archiveAll w threads st = (Ret tt, st') /\
    total (stats st') = len threads /\
    archived (stats st') + failed (stats st')
    = archived (stats st) + failed (stats st) + len threads /\
    archived (stats st) <= archived (stats st') /\
    failed (stats st) <= failed (stats st').
Proof.
  intros Hdry.
  destruct (archiveAll_spec w threads st Hdry)
    as (st' & E & T & _ & Ar & F & _).
  exists st'. split; [exact E |]. split; [exact T |].
  pose proof (filter_negb_length acknowledged
                (put_responses w (n_put st) threads)) as HL.
  unfold len in *. rewrite put_responses_length in HL.
  repeat split; lia.
Qed.

Lemma archiveAll_accumulates_witness :
  let w := sample_world [] true in
  let st := snd (archiveAll w sample_inbox start_state) in
  exists st',
    archiveAll w sample_inbox st = (Ret tt, st') /\
    total (stats st') = len sample_inbox /\
    archived (stats st') + failed (stats st')
    = archived (stats st) + failed (stats st) + len sample_inbox /\
    archived (stats st) <= archived (stats st') /\
    failed (stats st) <= failed (stats st').
Proof.
  intros w st.
  apply (archiveAll_accumulates w sample_inbox st).
  reflexivity.
Defined.

Lemma puts_and_pauses_app (xs ys : list Event) :
  puts_and_pauses (xs ++ ys) = puts_and_pauses xs ++ puts_and_pauses ys.
Proof. apply filter_app. Qed.

Lemma archiveThread_puts_and_pauses (w : World) (i : Z) (st : State) :
  puts_and_pauses (trace (snd (archiveThread w i st)))
  = puts_and_pauses (trace st) ++ [EvPut i 1].
Proof.
  rewrite archiveThread_trace, puts_and_pauses_app.
  destruct (put_error (on_put w (n_put st) i)); reflexivity.
Qed.

Lemma archive_loop_puts_and_pauses (w : World) (n : Z) (rest : list Thread) :
  forall j st,
    puts_and_pauses (trace (snd (archive_loop w n j rest st)))
    = puts_and_pauses (trace st)
      ++ flat_map (fun t => [EvPut (id t) 1; EvSleep 100]) rest.
Proof.
  induction rest as [| thread rest IH]; intros j st.
  - simpl. now rewrite app_nil_r.
  - simpl archive_loop. rewrite bind_out.
    pose proof (archiveThread_puts_and_pauses w (id thread)
                  (log [EvOut (SpinText (j + 1) n (subject_text thread))] st))
      as P.
    destruct (archiveThread_spec w (id thread)
                (log [EvOut (SpinText (j + 1) n (subject_text thread))] st))
      as (st1 & E1 & _).
    rewrite E1 in P. simpl snd in P.
    rewrite (bind_Ret _ _ _ _ _ E1).
    unfold bind at 1. rewrite emit_log.
    rewrite IH. simpl trace.
    rewrite puts_and_pauses_app, P. simpl trace.
    rewrite puts_and_pauses_app. simpl.
    rewrite app_nil_r, <- !app_assoc. reflexivity.
Qed.

(** X13.  Out of a dry run, the PUTs and the pauses of [archiveAll]
    alternate: for each thread, in order, a PUT for its [id] with
    [archived_flag: 1], then a pause of 100 ms, after the last PUT as
    well. *)
Theorem archiveAll_pauses (w : World) (threads : list Thread) (st : State) :
  includes (argv w) "--dry-run" = false ->
  puts_and_pauses (trace (snd (archiveAll w threads st)))
  = puts_and_pauses (trace st)
    ++ flat_map (fun t => [EvPut (id t) 1; EvSleep 100]) threads.
Proof.
  intros Hdry. unfold archiveAll. rewrite Hdry.
  rewrite bind_out. unfold bind at 1. unfold get_stats.
  unfold bind at 1. unfold set_stats.
  match goal with
  | |- context [bind (archive_loop w ?n ?j threads) _ ?s] =>
      pose proof (archive_loop_puts_and_pauses w n threads j s) as P;
      destruct (archive_loop_spec w n threads j s) as (st1 & E1 & _)
  end.
  rewrite E1 in P. simpl snd in P.
  rewrite (bind_Ret _ _ _ _ _ E1). rewrite out_log. simpl.
  rewrite puts_and_pauses_app, P. simpl.
  rewrite puts_and_pauses_app. simpl. now rewrite !app_nil_r.
Qed.

Lemma archiveAll_pauses_witness :
  puts_and_pauses
    (trace (snd (archiveAll (sample_world [] true)
                   (unarchived_threads sample_inbox) start_state)))
  = [EvPut 1 1; EvSleep 100; EvPut 3 1; EvSleep 100; EvPut 4 1; EvSleep 100].
Proof.
  apply (archiveAll_pauses (sample_world [] true)
           (unarchived_threads sample_inbox) start_state).
  reflexivity.
Defined.

(** ** The preview of [displayThreadInfo] *)

Lemma displayThreadInfo_exact (threads : list Thread) (st : State) :
  let u := unarchived_threads threads in
  trace (snd (displayThreadInfo threads st))
  = trace st
    ++ [EvOut LogSummary; EvOut (LogTotal (len threads));
        EvOut (LogUnarchived (len u));
        EvOut (LogAlreadyArchived (len (archived_threads threads)))]
    ++ (if len u >? 0 then
          EvOut LogSampleHeader
          :: map (fun t => EvOut (LogSample (subject_text t)
                                    (parties_text t))) (firstn 5 u)
          ++ (if len u >? 5 then [EvOut (LogMore (len u - 5))] else [])
        else []).
Proof.
  intros u. subst u. unfold displayThreadInfo.
  rewrite !bind_out, !log_log. simpl app.
  destruct (len (unarchived_threads threads) >? 0).
  - rewrite bind_assoc, bind_out, bind_assoc.
    rewrite (bind_Ret _ _ _ _ _
               (forEach_out (fun t => LogSample (subject_text t)
                                        (parties_text t)) _ _)).
    rewrite !log_log.
    destruct (len (unarchived_threads threads) >? 5); simpl;
      rewrite <- ?app_assoc; simpl; rewrite ?app_nil_r; reflexivity.
  - simpl. reflexivity.
Qed.

Lemma samples_app (xs ys : list Event) :
  samples (xs ++ ys) = samples xs ++ samples ys.
Proof. apply flat_map_app. Qed.

Lemma mores_app (xs ys : list Event) :
  mores (xs ++ ys) = mores xs ++ mores ys.
Proof. apply flat_map_app. Qed.

Lemma samples_out (threads : list Thread) :
  samples (map (fun t => EvOut (LogSample (subject_text t) (parties_text t)))
             threads)
  = map (fun t => (subject_text t, parties_text t)) threads.
Proof. induction threads as [| t ts IH]; simpl; [| rewrite <- IH]; auto. Qed.

Lemma mores_out (threads : list Thread) :
  mores (map (fun t => EvOut (LogSample (subject_text t) (parties_text t)))
           threads) = [].
Proof. induction threads as [| t ts IH]; simpl; auto. Qed.

Lemma samples_summary (a b c : Z) :
  samples [EvOut LogSummary; EvOut (LogTotal a); EvOut (LogUnarchived b);
           EvOut (LogAlreadyArchived c)] = [].
Proof. reflexivity. Qed.

Lemma mores_summary (a b c : Z) :
  mores [EvOut LogSummary; EvOut (LogTotal a); EvOut (LogUnarchived b);
         EvOut (LogAlreadyArchived c)] = [].
Proof. reflexivity. Qed.

Lemma samples_header (rest : list Event) :
  samples (EvOut LogSampleHeader :: rest) = samples rest.
Proof. reflexivity. Qed.

Lemma mores_header (rest : list Event) :
  mores (EvOut LogSampleHeader :: rest) = mores rest.
Proof. reflexivity. Qed.

Lemma samples_more (b : bool) (n : Z) :
  samples (if b then [EvOut (LogMore n)] else []) = [].
Proof. now destruct b. Qed.

Lemma mores_more (b : bool) (n : Z) :
  mores (if b then [EvOut (LogMore n)] else []) = if b then [n] else [].
Proof. now destruct b. Qed.

(** X14.  The preview of [displayThreadInfo] shows the first five
    unarchived threads, in order, by subject and party, and a line
    "... and n more" exactly when there are more than five, with the number
    of those left out.  The method only writes to the console. *)
Theorem displayThreadInfo_preview (threads : list Thread) (st : State) :
  let u := unarchived_threads threads in
  let st' := snd (displayThreadInfo threads st) in
  samples (trace st')
  = samples (trace st)
    ++ map (fun t => (subject_text t, parties_text t)) (firstn 5 u) /\
  mores (trace st')
  = mores (trace st) ++ (if len u >? 5 then [len u - 5] else []) /\
  (List.length (firstn 5 u) <= 5)%nat /\
  only is_output st st'.
Proof.
  intros u st'. subst st'.
  pose proof (displayThreadInfo_exact threads st) as T. cbv zeta in T.
  fold u in T.
  assert (Hnil : (len u >? 0) = false -> u = []).
  { intros H. destruct u as [| t ts]; [reflexivity |].
    unfold len in H. simpl List.length in H.
    rewrite Z.gtb_ltb in H. apply Z.ltb_ge in H. lia. }
  assert (H5 : (len u >? 0) = false -> (len u >? 5) = false).
  { intros H. rewrite (Hnil H). reflexivity. }
  split; [| split; [| split]].
  - rewrite T, !samples_app, samples_summary. cbn [app]. f_equal.
    destruct (len u >? 0) eqn:E0.
    + now rewrite samples_header, samples_app, samples_out, samples_more,
        app_nil_r.
    + rewrite (Hnil eq_refl). reflexivity.
  - rewrite T, !mores_app, mores_summary. cbn [app]. f_equal.
    destruct (len u >? 0) eqn:E0.
    + now rewrite mores_header, mores_app, mores_out, mores_more.
    + now rewrite (H5 eq_refl).
  - apply firstn_le_length.
  - now apply only_displayThreadInfo.
Qed.

(** ** The texts of the preview *)

Lemma or_default_nonempty (a : option string) (d : string) :
  d <> "" -> Js.or_default a d <> "".
Proof.
  intros Hd. unfold Js.or_default.
  destruct a as [s |]; [| exact Hd].
  destruct (s =? "")%string eqn:E; [exact Hd |].
  now apply String.eqb_neq.
Qed.

Lemma or_default_cases (a : option string) (d : string) :
  (exists s, a = Some s /\ s <> "" /\ Js.or_default a d = s) \/
  ((a = None \/ a = Some "") /\ Js.or_default a d = d).
Proof.
  unfold Js.or_default. destruct a as [s |]; [| right; now split; [left |]].
  destruct (s =? "")%string eqn:E.
  - apply String.eqb_eq in E. subst s. right. now split; [right |].
  - apply String.eqb_neq in E. left. now exists s.
Qed.

Lemma or_else_cases (a b : option string) (d : string) :
  (exists s, a = Some s /\ s <> "" /\ Js.or_default (Js.or_else a b) d = s) \/
  ((a = None \/ a = Some "") /\
   Js.or_default (Js.or_else a b) d = Js.or_default b d).
Proof.
  destruct a as [s |]; [| right; now split; [left |]].
  unfold Js.or_else.
  destruct (s =? "")%string eqn:E.
  - apply String.eqb_eq in E. subst s. right. now split; [right |].
  - left. exists s. unfold Js.or_default. rewrite E.
    apply String.eqb_neq in E. now repeat split.
Qed.

Lemma recipient_name_first (thread : Thread) (ps : Parties) :
  parties thread = Some ps -> recipient_name thread = first_name (to ps).
Proof.
  unfold recipient_name. intros ->.
  destruct ps as [[[| [n] rest] |] f]; reflexivity.
Qed.

Lemma sender_name_first (thread : Thread) (ps : Parties) :
  parties thread = Some ps -> sender_name thread = first_name (from ps).
Proof.
  unfold sender_name. intros ->.
  destruct ps as [t [[| [n] rest] |]]; reflexivity.
Qed.

(** X15.  The subject and the party shown for a thread are never empty.
    The subject shown is the subject of the thread, or "No subject" when
    the thread has none or an empty one.  The party shown is the name of
    the first recipient; failing that (no recipient, no name or an empty
    one), the name of the first sender; failing that too, "Unknown". *)
Theorem preview_texts (thread : Thread) :
  subject_text thread <> "" /\
  parties_text thread <> "" /\
  ((exists s,
       subject thread = Some s /\ s <> "" /\ subject_text thread = s) \/
   ((subject thread = None \/ subject thread = Some "") /\
    subject_text thread = "No subject")) /\
  ((exists s,
       recipient_name thread = Some s /\ s <> "" /\
       parties_text thread = s) \/
   ((recipient_name thread = None \/ recipient_name thread = Some "") /\
    ((exists s,
         sender_name thread = Some s /\ s <> "" /\
         parties_text thread = s) \/
     ((sender_name thread = None \/ sender_name thread = Some "") /\
      parties_text thread = "Unknown")))).
Proof.
  split; [apply or_default_nonempty; discriminate |].
  split.
  { unfold parties_text. destruct (parties thread) as [ps |].
    - apply or_default_nonempty. discriminate.
    - discriminate. }
  split; [apply or_default_cases |].
  unfold parties_text.
  destruct (parties thread) as [ps |] eqn:Ep.
  - rewrite (recipient_name_first thread ps Ep).
    rewrite (sender_name_first thread ps Ep).
    destruct (or_else_cases (first_name (to ps)) (first_name (from ps))
                "Unknown") as [H | [H E]]; [now left |].
    right. split; [exact H |]. rewrite E. apply or_default_cases.
  - unfold recipient_name, sender_name. rewrite Ep.
    right. split; [now left |]. right. split; [now left | reflexivity].
Qed.

(** A thread sent to Ann; one whose recipient has an empty name, sent by
    Bob; one without subject and parties. *)
Example preview_texts_samples :
  let thread s t f :=
    {| id := 1; subject := s;
       parties := Some {| to := Some [{| name := t |}];
                          from := Some [{| name := f |}; {| name := t |}] |};
       archived_flag := Js.Num 0 |} in
  (subject_text (thread (Some "Offer") (Some "Ann") (Some "Bob")),
   parties_text (thread (Some "Offer") (Some "Ann") (Some "Bob")))
  = ("Offer", "Ann") /\
  (subject_text (thread (Some "") (Some "") (Some "Bob")),
   parties_text (thread (Some "") (Some "") (Some "Bob")))
  = ("No subject", "Bob") /\
  (subject_text {| id := 1; subject := None; parties := None;
                   archived_flag := Js.Num 0 |},
   parties_text {| id := 1; subject := None; parties := None;
                   archived_flag := Js.Num 0 |})
  = ("No subject", "Unknown").
Proof. repeat split. Qed.

(** ** [parseArgs] and the three statements of the script *)

Lemma includes_skipn (n : nat) (args : list string) (flag : string) :
  includes (skipn n args) flag = true -> includes args flag = true.
Proof.
  unfold includes. intros H.
  rewrite <- (firstn_skipn n args), existsb_app, H.
  apply orb_true_r.
Qed.

Lemma parseArgs_returns (w : World) (st : State) :
  includes (skipn 2 (argv w)) "--help" = false ->
  includes (skipn 2 (argv w)) "-h" = false ->
  parseArgs w st
  = (Ret {| help := false;
            dryRun := includes (skipn 2 (argv w)) "--dry-run";
            yes := includes (skipn 2 (argv w)) "--yes"
                   || includes (skipn 2 (argv w)) "-y" |}, st).
Proof.
  intros H1 H2. unfold parseArgs. cbv beta zeta. cbn [help].
  now rewrite H1, H2.
Qed.

(** X16.  Without a help flag [parseArgs] returns its options and does
    nothing else.  A flag it reports is a flag the methods see as well:
    they look at the whole of [process.argv], [parseArgs] at all but its
    first two entries. *)
Theorem parseArgs_options (w : World) (st : State) :
  includes (skipn 2 (argv w)) "--help" = false ->
  includes (skipn 2 (argv w)) "-h" = false ->
  exists options,
    parseArgs w st = (Ret options, st) /\
    help options = false /\
    implb (yes options)
      (includes (argv w) "--yes" || includes (argv w) "-y") = true /\
    implb (dryRun options) (includes (argv w) "--dry-run") = true.
Proof.
  intros H1 H2. eexists. split; [now apply parseArgs_returns |].
  cbn [help yes dryRun]. split; [reflexivity |]. split.
  - destruct (includes (skipn 2 (argv w)) "--yes") eqn:Ey.
    { now rewrite (includes_skipn _ _ _ Ey). }
    destruct (includes (skipn 2 (argv w)) "-y") eqn:Ey'; [| reflexivity].
    rewrite (includes_skipn _ _ _ Ey'). simpl. apply orb_true_r.
  - destruct (includes (skipn 2 (argv w)) "--dry-run") eqn:Ed;
      [| reflexivity].
    now rewrite (includes_skipn _ _ _ Ed).
Qed.

Lemma parseArgs_options_witness :
  let w := sample_world ["-y"; "--dry-run"] true in
  exists options,
    parseArgs w start_state = (Ret options, start_state) /\
    help options = false /\
    implb (yes options)
      (includes (argv w) "--yes" || includes (argv w) "-y") = true /\
    implb (dryRun options) (includes (argv w) "--dry-run") = true.
Proof.
  intros w.
  apply (parseArgs_options w start_state); reflexivity.
Defined.

Lemma constructor_eq (w : World) (st : State) :
  constructor w st
  = if token_missing w then (Exit 1, log [EvOut ErrNoToken] st)
    else (Ret tt, {| stats := zero_stats; trace := trace st;
                     n_get := n_get st; n_put := n_put st |}).
Proof.
  unfold constructor, token_missing, bind.
  destruct (PIPEDRIVE_API_TOKEN w) as [s |]; simpl; [| reflexivity].
  destruct (s =? "")%string; reflexivity.
Qed.

(** X17.  Without a token (none, or an empty one) and without a help
    flag, the script says that the token is missing and leaves with code 1:
    no request is sent and nobody is asked anything. *)
Theorem main_without_token (w : World) (fuel : nat) (st : State) :
  includes (skipn 2 (argv w)) "--help" = false ->
  includes (skipn 2 (argv w)) "-h" = false ->
  token_missing w = true ->
  main w fuel st = (Exit 1, log [EvOut ErrNoToken] st).
Proof.
  intros H1 H2 Ht. unfold main.
  rewrite (bind_Ret _ _ _ _ _ (parseArgs_returns w st H1 H2)).
  unfold bind. now rewrite constructor_eq, Ht.
Qed.

Lemma main_without_token_witness :
  main (world_of ["--yes"] (Some "") (one_page sample_inbox) (Answered true))
    5 start_state
  = (Exit 1, log [EvOut ErrNoToken] start_state).
Proof.
  apply (main_without_token
           (world_of ["--yes"] (Some "") (one_page sample_inbox)
              (Answered true)) 5 start_state);
    reflexivity.
Defined.

(** X18.  With [--help] or [-h] among the arguments, the script prints
    the help and leaves with code 0, whatever else is on the command line
    and even without a token: no request is sent. *)
Theorem main_help (w : World) (fuel : nat) (st : State) :
  includes (skipn 2 (argv w)) "--help" = true \/
  includes (skipn 2 (argv w)) "-h" = true ->
  main w fuel st = (Exit 0, log [EvOut LogHelp] st).
Proof.
  intros H. unfold main, parseArgs. cbv beta zeta. cbn [help].
  assert (E : includes (skipn 2 (argv w)) "--help"
              || includes (skipn 2 (argv w)) "-h" = true)
    by (apply orb_true_iff; exact H).
  now rewrite E.
Qed.

Lemma main_help_witness :
  main (world_of ["--yes"; "-h"] None (one_page sample_inbox) (Answered true))
    5 start_state
  = (Exit 0, log [EvOut LogHelp] start_state).
Proof.
  apply (main_help
           (world_of ["--yes"; "-h"] None (one_page sample_inbox)
              (Answered true)) 5 start_state).
  right. reflexivity.
Defined.

(** X19.  With a token and without a help flag, the script is [run] on
    an archiver whose statistics are all zero; nothing is written before
    the title. *)
Theorem main_runs (w : World) (fuel : nat) (st : State) :
  includes (skipn 2 (argv w)) "--help" = false ->
  includes (skipn 2 (argv w)) "-h" = false ->
  token_missing w = false ->
  main w fuel st
  = run w fuel {| stats := {| total := 0; archived := 0;
                              alreadyArchived := 0; failed := 0 |};
                 trace := trace st; n_get := n_get st; n_put := n_put st |}.
Proof.
  intros H1 H2 Ht. unfold main.
  rewrite (bind_Ret _ _ _ _ _ (parseArgs_returns w st H1 H2)).
  unfold bind at 1. now rewrite constructor_eq, Ht.
Qed.

Lemma main_runs_witness :
  main (sample_world ["--yes"] true) 5
    {| stats := {| total := 7; archived := 7; alreadyArchived := 7;
                   failed := 7 |};
       trace := []; n_get := 0; n_put := 0 |}
  = run (sample_world ["--yes"] true) 5 start_state.
Proof.
  apply (main_runs (sample_world ["--yes"] true) 5
           {| stats := {| total := 7; archived := 7; alreadyArchived := 7;
                          failed := 7 |};
              trace := []; n_get := 0; n_put := 0 |});
    reflexivity.
Defined.

Lemma getAllThreads_goes_on_witness :
  fst (getAllThreads
         (world_of [] (Some "token") endless (Answered true)) 50
         start_state) = OutOfFuel.
Proof.
  apply (getAllThreads_goes_on
           (world_of [] (Some "token") endless (Answered true)) start_state).
  intros j. reflexivity.
Defined.

(** ** [--yes] *)

Lemma only_not_prompt_archiveThread (w : World) (threadId : Z) :
  keeps (only not_prompt) (archiveThread w threadId).
Proof. unfold archiveThread. keeps_auto. Qed.

#[local] Hint Resolve only_not_prompt_archiveThread : keeps.

Lemma only_not_prompt_archive_loop (w : World) (n : Z) (rest : list Thread) :
  forall j, keeps (only not_prompt) (archive_loop w n j rest).
Proof.
  induction rest as [| thread rest IH]; intros j; simpl.
  - auto with keeps.
  - keeps_auto.
Qed.

#[local] Hint Resolve only_not_prompt_archive_loop : keeps.

Lemma only_not_prompt_archiveAll (w : World) (threads : list Thread) :
  keeps (only not_prompt) (archiveAll w threads).
Proof.
  unfold archiveAll.
  destruct (includes (argv w) "--dry-run").
  - keeps_auto.
  - keeps_step.
    intros st. unfold bind at 1. unfold get_stats.
    unfold bind at 1. unfold set_stats.
    match goal with
    | |- only _ st (snd (?m ?s)) =>
        apply (only_trans _ st s); [exists []; simpl; now rewrite app_nil_r |];
        assert (K : keeps (only not_prompt) m) by keeps_auto;
        apply K
    end.
Qed.

Lemma is_fetch_not_prompt (ev : Event) :
  is_fetch ev = true -> not_prompt ev = true.
Proof. now destruct ev. Qed.

Lemma not_prompt_prompts (ev : Event) :
  not_prompt ev = true ->
  match ev with EvPrompt n => [n] | _ => [] end = [].
Proof. now destruct ev. Qed.

Lemma confirmArchive_skips (w : World) (n : Z) (st : State) :
  includes (argv w) "--yes" = true \/ includes (argv w) "-y" = true ->
  confirmArchive w n st = (Ret true, st).
Proof.
  intros H. unfold confirmArchive.
  assert (E : includes (argv w) "--yes" || includes (argv w) "-y" = true)
    by (apply orb_true_iff; exact H).
  now rewrite E.
Qed.

(** X21.  Started with [--yes] or [-y], [run] never asks the user
    anything, however it ends. *)
Theorem run_yes_never_prompts (w : World) (fuel : nat) (st : State) :
  includes (argv w) "--yes" = true \/ includes (argv w) "-y" = true ->
  prompts (trace (snd (run w fuel st))) = prompts (trace st).
Proof.
  intros Hyes.
  apply (only_flat_map not_prompt); [exact not_prompt_prompts |].
  destruct (run_cases w fuel st) as (o & st1 & E & C).
  destruct (only_after_title w fuel st st1 o E) as (O1 & _).
  apply (only_weaken _ _ _ _ is_fetch_not_prompt) in O1.
  eapply only_trans; [exact O1 |].
  destruct C as [(e & -> & R) | [(-> & R) | [(-> & R) | [C | C]]]].
  - rewrite R. now apply only_log_out.
  - rewrite R. apply only_refl.
  - rewrite R. now apply only_log_out.
  - destruct C as (allThreads & -> & _ & _ & R). rewrite R. simpl snd.
    eapply only_trans; [| now apply only_log_out].
    now apply only_displayThreadInfo.
  - destruct C as (allThreads & st3 & -> & _ & C).
    eapply only_trans;
      [apply (only_displayThreadInfo not_prompt allThreads); reflexivity |].
    rewrite (confirmArchive_skips w _ _ Hyes) in C.
    destruct C as [(Ec & R) | [(Ec & R) | (e & Ec & R)]];
      try discriminate.
    injection Ec as <-. rewrite R. simpl snd.
    eapply only_trans; [apply only_not_prompt_archiveAll |].
    now apply only_displayStats.
Qed.

Lemma run_yes_never_prompts_witness :
  prompts (trace (snd (run (sample_world ["-y"] false) 5 start_state)))
  = prompts (trace start_state).
Proof.
  apply (run_yes_never_prompts (sample_world ["-y"] false) 5 start_state).
  right. reflexivity.
Defined.
